(** * github-clubhouse-importer: a shallow embedding of [src/ghch.js]

    The importer lists the issues of a GitHub repository, turns every issue
    into a Clubhouse story and posts the stories in batches of ten.  This file
    embeds the functions of [src/ghch.js] and proves the properties the
    specification states about them.

    Layout: JavaScript values and strings ([Js]), the lodash helper
    ([Lodash]), the records exchanged with the two services, the effect
    monad (console output, network calls, exceptions, process exit), the
    functions of the source in source order, the vocabulary of the
    properties and sample inputs, then the lemmas on running the code
    ([JsFacts], [LodashFacts], [Run]) and the theorems. *)

From Stdlib Require Import List String Ascii Arith Bool Lia Permutation.
From Stdlib Require Import ZArith DecimalString.
Import ListNotations.

Local Open Scope string_scope.
Local Open Scope nat_scope.
Local Open Scope list_scope.

(* ------------------------------------------------------------------ *)
(** ** JavaScript strings and exceptions *)

Module Js.

(** [s.startsWith(needle)]. *)
Fixpoint startsWith (s needle : string) : bool :=
  match needle, s with
  | EmptyString, _ => true
  | String _ _, EmptyString => false
  | String a needle', String b s' => Ascii.eqb a b && startsWith s' needle'
  end.

(** [s.includes(needle)]: [needle] occurs in [s] at some offset.  The
    comparison is exact, character by character. *)
Fixpoint includes (s needle : string) : bool :=
  startsWith s needle
  || match s with
     | EmptyString => false
     | String _ s' => includes s' needle
     end.

(** [toLowerCase] on one character: the letters [A]..[Z] move to [a]..[z].
    Strings are byte strings here, so only these letters change; no other
    character lower-cases to a letter of [open], [closed], [all], [bug] or
    [chore]. *)
Definition lower_char (c : ascii) : ascii :=
  let n := nat_of_ascii c in
  if (65 <=? n) && (n <=? 90) then ascii_of_nat (n + 32) else c.

Fixpoint toLowerCase (s : string) : string :=
  match s with
  | EmptyString => EmptyString
  | String c s' => String (lower_char c) (toLowerCase s')
  end.

(** [s.split(sep)] for a one-character separator. *)
Fixpoint split (sep : ascii) (s : string) : list string :=
  match s with
  | EmptyString => [EmptyString]
  | String c s' =>
      if Ascii.eqb c sep then EmptyString :: split sep s'
      else match split sep s' with
           | [] => [String c EmptyString]
           | piece :: pieces => String c piece :: pieces
           end
  end.

(** [array.includes(x)] on an array of strings. *)
Definition array_includes (xs : list string) (x : string) : bool :=
  existsb (String.eqb x) xs.

(** [String(n)] for a non-negative integer. *)
Definition string_of_nat (n : nat) : string :=
  NilEmpty.string_of_uint (Nat.to_uint n).

(** A value that is a string or [undefined], and its text in a template
    literal. *)
Definition template (v : option string) : string :=
  match v with
  | Some s => s
  | None => "undefined"
  end.

(** [!v] for a value that is a string or [undefined]: the empty string and
    [undefined] are the falsy ones. *)
Definition falsy (v : option string) : bool :=
  match v with
  | None => true
  | Some s => String.eqb s ""
  end.

(** Exceptions: the built-in kinds the source can raise, [Error] for the
    ones made with [new Error(message)], and the errors of the libraries
    ([HttpError], [FetchError], ...) by name and message. *)
Inductive Exception : Type :=
| TypeError (message : string)
| ReferenceError (message : string)
| Error (message : string)
| LibraryError (name message : string).

(** [e.name] and [e.message]. *)
Definition error_name (e : Exception) : string :=
  match e with
  | TypeError _ => "TypeError"
  | ReferenceError _ => "ReferenceError"
  | Error _ => "Error"
  | LibraryError n _ => n
  end.

Definition error_message (e : Exception) : string :=
  match e with
  | TypeError m | ReferenceError m | Error m | LibraryError _ m => m
  end.

(** [String(e)], which is what [log(chalk.red(e))] prints.  This is
    [Error.prototype.toString]: the message alone when the name is empty,
    the name alone when the message is empty, and otherwise the name, a
    colon, a space and the message. *)
Definition render (e : Exception) : string :=
  let name := error_name e in
  let msg := error_message e in
  if String.eqb name "" then msg
  else if String.eqb msg "" then name
  else (name ++ ": " ++ msg)%string.

End Js.

(* ------------------------------------------------------------------ *)
(** ** lodash *)

Module Lodash.

Section Chunk.
Context {A : Type}.

(** [slice(array, start, end)]. *)
Definition slice (array : list A) (start stop : nat) : list A :=
  firstn (stop - start) (skipn start array).

(** The loop of [chunk]: [while (index < length) result.push(slice(array,
    index, index += size))].  [fuel] bounds the number of rounds. *)
Fixpoint chunk_loop (fuel : nat) (array : list A) (size index : nat)
  : list (list A) :=
  match fuel with
  | O => []
  | S fuel' =>
      if index <? List.length array
      then slice array index (index + size)
           :: chunk_loop fuel' array size (index + size)
      else []
  end.

(** Modelled from the spec: [lodash.chunk] is a dependency whose source is
    not in the repository.  The specification has the records partitioned
    into contiguous batches of at most [size] records, in order, the last
    batch holding what remains (25 records give batches of 10, 10 and 5);
    this is lodash's loop, which takes [size] elements per round from the
    current index.  An empty array or a size below one gives no batch.
    The loop runs at most [length array] rounds. *)
Definition chunk (array : list A) (size : nat) : list (list A) :=
  if (List.length array =? 0) || (size <? 1) then []
  else chunk_loop (List.length array) array size 0.

End Chunk.

End Lodash.

(* ------------------------------------------------------------------ *)
(** ** Records of the two services *)

(** A label of a GitHub issue. *)
Module Label.
Record t : Type := mk { name : string; color : string }.
End Label.

(** The [pull_request] object GitHub attaches to the items of the issue
    listing that are pull requests. *)
Module PullRequest.
Record t : Type := mk { url : string }.
End PullRequest.

(** An item of the GitHub issue listing, with the fields the importer
    reads.  [body] is [null] for an issue without text; [pull_request] is
    absent on a plain issue. *)
Module Issue.
Record t : Type := mk {
  html_url : string;
  created_at : string;
  updated_at : string;
  labels : list Label.t;
  title : string;
  body : option string;
  pull_request : option PullRequest.t
}.
End Issue.

(** The three story types of Clubhouse the importer produces. *)
Inductive StoryType : Type := bug | chore | feature.

(** A story as posted to Clubhouse. *)
Module Story.
Record t : Type := mk {
  created_at : string;
  updated_at : string;
  story_type : StoryType;
  name : string;
  description : string;
  external_id : string;
  project_id : Z;
  labels : list Label.t
}.
End Story.

(** The Clubhouse project, of which the importer reads the [id]. *)
Module Project.
Record t : Type := mk { id : Z }.
End Project.

(* ------------------------------------------------------------------ *)
(** ** The mapper: [getStoryType] and [getStory] *)

(** [labels.find(...)] gives a label or [undefined]; a label is an object and
    so truthy. *)
Definition getStoryType (labels : list Label.t) : StoryType :=
  match find (fun label => Js.includes (Label.name label) "bug") labels with
  | Some _ => bug
  | None =>
      match find (fun label => Js.includes (Label.name label) "chore") labels with
      | Some _ => chore
      | None => feature
      end
  end.

(** [body || '']: [null] and the empty string both give the empty string. *)
Definition or_empty (body : option string) : string :=
  match body with
  | Some s => if String.eqb s "" then "" else s
  | None => ""
  end.

Definition getStory (project_id : Z) (issue : Issue.t) : Story.t :=
  let story_type := getStoryType (Issue.labels issue) in
  {| Story.created_at := Issue.created_at issue;
     Story.updated_at := Issue.updated_at issue;
     Story.story_type := story_type;
     Story.name := Issue.title issue;
     Story.description := or_empty (Issue.body issue);
     Story.external_id := Issue.html_url issue;
     Story.project_id := project_id;
     Story.labels :=
       map (fun label =>
              {| Label.color := ("#" ++ Label.color label)%string;
                 Label.name := Label.name label |})
           (Issue.labels issue) |}.

(* ------------------------------------------------------------------ *)
(** ** Effects: console, network, exceptions, process exit *)

(** The command-line options handed to the importer.  Each is a string or
    [undefined]. *)
Module Options.
Record t : Type := mk {
  githubToken : option string;
  clubhouseToken : option string;
  clubhouseProject : option string;
  githubUrl : option string;
  state : option string
}.
End Options.

(** The options of the GitHub listing request built by [fetchGithubIssues]. *)
Module ListRequest.
Record t : Type := mk {
  auth : option string;
  owner : option string;
  repo : option string;
  per_page : nat;
  state : option string
}.
End ListRequest.

(** The network calls of the importer.  [octokit.paginate] is one entry: it
    follows the pages of the listing and hands back their concatenation. *)
Inductive NetCall : Type :=
| ListForRepo (request : ListRequest.t)
| GetProject (token id : option string)
| BulkCreate (token : option string) (stories : list Story.t).

(** What the user sees: the lines of [log] (all of them printed in red by
    the source, apart from the empty line before exit) and the three spinner
    calls.  [chalk] only adds terminal styling, which is left out. *)
Inductive Output : Type :=
| Log (line : string)
| LogBlank
| SpinnerStart (text : string)
| SpinnerSucceed (text : string)
| SpinnerFail (text : string).

(** The answer of Clubhouse to a bulk-create request: a success status with
    the array of created stories (their ids here; only the length is read),
    a non-success status with its status text and the error body as
    [JSON.stringify(body, null, 2)] prints it, or a failure of [fetch] or of
    [res.json()]. *)
Inductive BulkResponse : Type :=
| Accepted (body : list Z)
| Rejected (statusText body : string)
| Unreachable (e : Js.Exception).

(** The world outside the process: the answers of the two services, and for
    the bulk-create requests, which may be in flight together, the time each
    takes.  A bulk-create request is identified by the number of network
    calls made before it. *)
Module World.
Record t : Type := mk {
  paginate : ListRequest.t -> Js.Exception + list Issue.t;
  getProject : option string -> option string -> Js.Exception + Project.t;
  bulk : nat -> option string -> list Story.t -> BulkResponse;
  latency : nat -> nat
}.
End World.

(** The state a run threads: what was printed and which network calls were
    made, oldest first. *)
Record Machine : Type := mkMachine {
  out : list Output;
  net : list NetCall
}.

Definition boot : Machine := {| out := []; net := [] |}.

(** How a piece of code ends: with a value, with an exception, or with
    [process.exit(code)], which no [catch] intercepts. *)
Inductive Outcome (A : Type) : Type :=
| Return (a : A)
| Throw (e : Js.Exception)
| Exit (code : Z).
Arguments Return {A} a.
Arguments Throw {A} e.
Arguments Exit {A} code.

Definition M (A : Type) : Type := Machine -> Outcome A * Machine.

Definition ret {A} (a : A) : M A := fun m => (Return a, m).

Definition bind {A B} (c : M A) (k : A -> M B) : M B :=
  fun m =>
    match c m with
    | (Return a, m') => k a m'
    | (Throw e, m') => (Throw e, m')
    | (Exit code, m') => (Exit code, m')
    end.

Definition throw {A} (e : Js.Exception) : M A := fun m => (Throw e, m).

Definition process_exit {A} (code : Z) : M A := fun m => (Exit code, m).

(** [try { body } catch (e) { handler }]. *)
Definition try_catch {A} (body : M A) (handler : Js.Exception -> M A) : M A :=
  fun m =>
    match body m with
    | (Throw e, m') => handler e m'
    | other => other
    end.

Definition emit (o : Output) : M unit :=
  fun m => (Return tt, {| out := out m ++ [o]; net := net m |}).

Definition send (c : NetCall) : M unit :=
  fun m => (Return tt, {| out := out m; net := net m ++ [c] |}).

(** The number of network calls made so far. *)
Definition calls_so_far : M nat :=
  fun m => (Return (List.length (net m)), m).

Declare Scope monad_scope.
Delimit Scope monad_scope with monad.
Notation "x <- c ;; k" := (bind c (fun x => k))
  (at level 61, c at next level, right associativity) : monad_scope.
Notation "c ;; k" := (bind c (fun _ => k))
  (at level 61, right associativity) : monad_scope.
Local Open Scope monad_scope.

(** A promise, by the time at which it settles and the way it settles. *)
Record Promise (A : Type) : Type := mkPromise {
  ready_at : nat;
  settled : Js.Exception + A
}.
Arguments mkPromise {A} ready_at settled.
Arguments ready_at {A} p.
Arguments settled {A} p.

(** [await p] in straight-line code. *)
Definition await {A} (p : Promise A) : M A :=
  match settled p with
  | inl e => throw e
  | inr a => ret a
  end.

(** [log], [ora(text).start()], [spinner.succeed(text)], [spinner.fail(text)]. *)
Definition log (line : string) : M unit := emit (Log line).

Definition newline : string := String (ascii_of_nat 10) EmptyString.

(* ------------------------------------------------------------------ *)
(** ** The fetcher: [fetchGithubIssues] *)

(** [octokit.paginate(octokitOptions)]. *)
Definition octokit_paginate (w : World.t) (request : ListRequest.t)
  : M (Promise (list Issue.t)) :=
  send (ListForRepo request) ;;
  ret (mkPromise 0 (World.paginate w request)).

(** An object is truthy, [undefined] is not. *)
Definition is_object {A} (v : option A) : bool :=
  match v with
  | Some _ => true
  | None => false
  end.

Definition fetchGithubIssues (w : World.t) (options : Options.t)
  : M (list Issue.t) :=
  match Options.githubUrl options with
  | None => throw (Js.TypeError "Cannot read property 'split' of undefined")
  | Some githubUrl =>
      let pieces := Js.split "/"%char githubUrl in
      let owner := nth_error pieces 0 in
      let repo := nth_error pieces 1 in
      let octokitOptions :=
        {| ListRequest.auth := Options.githubToken options;
           ListRequest.owner := owner;
           ListRequest.repo := repo;
           ListRequest.per_page := 100;
           ListRequest.state := Options.state options |} in
      pending <- octokit_paginate w octokitOptions ;;
      data <- await pending ;;
      ret (filter (fun issue => negb (is_object (Issue.pull_request issue))) data)
  end.

(* ------------------------------------------------------------------ *)
(** ** The submitter: [createStories] and [importIssuesToClubhouse] *)

(** How the promise of [createStories] settles for an answer of Clubhouse. *)
Definition createStories_settles (res : BulkResponse) : Js.Exception + list Z :=
  match res with
  | Accepted body => inr body
  | Rejected statusText body =>
      inl (Js.Error (statusText ++ ":" ++ newline ++ body)%string)
  | Unreachable e => inl e
  end.

(** [createStories] posts the stories at once and settles when the answer
    has arrived. *)
Definition createStories (w : World.t) (options : Options.t)
    (stories : list Story.t) : M (Promise (list Z)) :=
  n <- calls_so_far ;;
  send (BulkCreate (Options.clubhouseToken options) stories) ;;
  ret (mkPromise (World.latency w n)
         (createStories_settles
            (World.bulk w n (Options.clubhouseToken options) stories))).

(** [batches.map(async batch => ...)]: every callback runs up to its
    [await], that is, posts its batch; the callbacks run in array order. *)
Fixpoint post_batches (w : World.t) (options : Options.t)
    (batches : list (list Story.t)) : M (list (Promise (list Z))) :=
  match batches with
  | [] => ret []
  | batch :: batches' =>
      pending <- createStories w options batch ;;
      rest <- post_batches w options batches' ;;
      ret (pending :: rest)
  end.

(** The rest of a callback, run when its request has settled, on the shared
    counter [issuesImported].  An accepted batch adds the number of created
    stories.  For a failed one the [catch] block builds its message from
    [issue.number], and no binding of [issue] is in scope there: the block
    raises a [ReferenceError] before [log] is reached, and the callback's
    promise rejects. *)
Definition batch_settled (outcome : Js.Exception + list Z)
    (issuesImported : nat) : Js.Exception + nat :=
  match outcome with
  | inr added => inr (issuesImported + List.length added)
  | inl e => inl (Js.ReferenceError "issue is not defined")
  end.

(** The order in which requests in flight together settle: by the time
    they take, the earlier request first among equals. *)
Fixpoint arrive {A} (p : Promise A) (queue : list (Promise A))
  : list (Promise A) :=
  match queue with
  | [] => [p]
  | q :: queue' =>
      if ready_at p <=? ready_at q then p :: q :: queue'
      else q :: arrive p queue'
  end.

Definition arrival_order {A} (posted : list (Promise A)) : list (Promise A) :=
  fold_right arrive [] posted.

(** [await Promise.all(callbacks)]: the callbacks resume in arrival order;
    the first one that rejects rejects the whole, and the function goes on
    from there.  Callbacks resumed later have no effect the function or the
    user can see: they change the counter, which is no longer read, or
    raise the same error, which is dropped. *)
Fixpoint resume_all (arrived : list (Promise (list Z))) (issuesImported : nat)
  : Js.Exception + nat :=
  match arrived with
  | [] => inr issuesImported
  | p :: arrived' =>
      match batch_settled (settled p) issuesImported with
      | inr issuesImported' => resume_all arrived' issuesImported'
      | inl e => inl e
      end
  end.

Definition promise_all (posted : list (Promise (list Z))) (issuesImported : nat)
  : M nat :=
  match resume_all (arrival_order posted) issuesImported with
  | inr total => ret total
  | inl e => throw e
  end.

(** [clubhouse.getProject(id)]. *)
Definition clubhouse_getProject (w : World.t) (token id : option string)
  : M (Promise Project.t) :=
  send (GetProject token id) ;;
  ret (mkPromise 0 (World.getProject w token id)).

(** The function returns the number of imported issues, or [undefined]
    ([None]) when it leaves through its [catch] block, which has no
    [return]. *)
Definition importIssuesToClubhouse (w : World.t) (options : Options.t)
    (issues : list Issue.t) : M (option nat) :=
  try_catch
    (pending <- clubhouse_getProject w (Options.clubhouseToken options)
                  (Options.clubhouseProject options) ;;
     project <- await pending ;;
     let stories := map (fun issue => getStory (Project.id project) issue) issues in
     let batches := Lodash.chunk stories 10 in
     let issuesImported := 0 in
     posted <- post_batches w options batches ;;
     issuesImported <- promise_all posted issuesImported ;;
     ret (Some issuesImported))
    (fun error =>
       log ("Clubhouse Project ID "
            ++ Js.template (Options.clubhouseProject options)
            ++ " could not be found")%string ;;
       ret None).

(* ------------------------------------------------------------------ *)
(** ** The orchestrator: [validateOptions] and [githubClubhouseImport] *)

Definition recognized_states : list string := ["open"; "closed"; "all"].

Definition validateOptions (options : Options.t) : M unit :=
  let hasError := false in
  hasError <-
    (if Js.falsy (Options.githubToken options)
     then log "Usage: --github-token arg is required" ;; ret true
     else ret hasError) ;;
  hasError <-
    (if Js.falsy (Options.clubhouseToken options)
     then log "Usage: --clubhouse-token arg is required" ;; ret true
     else ret hasError) ;;
  hasError <-
    (if Js.falsy (Options.clubhouseProject options)
     then log "Usage: --clubhouse-project arg is required" ;; ret true
     else ret hasError) ;;
  hasError <-
    (if Js.falsy (Options.githubUrl options)
     then log "Usage: --github-url arg is required" ;; ret true
     else ret hasError) ;;
  state <-
    match Options.state options with
    | Some state => ret state
    | None =>
        throw (Js.TypeError "Cannot read property 'toLowerCase' of undefined")
    end ;;
  hasError <-
    (if negb (Js.array_includes recognized_states (Js.toLowerCase state))
     then log "Usage: --state must be one of open | closed | all" ;; ret true
     else ret hasError) ;;
  if hasError then emit LogBlank ;; process_exit 1%Z else ret tt.

(** The text of [issuesImported] in the closing message. *)
Definition show_count (issuesImported : option nat) : string :=
  match issuesImported with
  | Some n => Js.string_of_nat n
  | None => "undefined"
  end.

Definition githubClubhouseImport (w : World.t) (options : Options.t) : M unit :=
  validateOptions options ;;
  emit (SpinnerStart "Retrieving issues from Github") ;;
  issues <-
    try_catch
      (issues <- fetchGithubIssues w options ;;
       emit (SpinnerSucceed
               ("Retrieved " ++ Js.string_of_nat (List.length issues)
                ++ " issues from Github")%string) ;;
       ret (Some issues))
      (fun err =>
         emit (SpinnerFail
                 ("Failed to fetch issues from "
                  ++ Js.template (Options.githubUrl options) ++ newline)%string) ;;
         log (Js.render err) ;;
         ret None) ;;
  match issues with
  | Some issues =>
      emit (SpinnerStart "Importing issues into Clubhouse") ;;
      issuesImported <- importIssuesToClubhouse w options issues ;;
      emit (SpinnerSucceed
              ("Imported " ++ show_count issuesImported
               ++ " issues into Clubhouse")%string)
  | None => ret tt
  end.

(* ------------------------------------------------------------------ *)
(** ** Vocabulary of the properties *)

(** [word] occurs in [s]: some text, then [word], then some text. *)
Definition occurs_in (word s : string) : Prop :=
  exists before after : string, s = (before ++ word ++ after)%string.

(** The outcome and the final machine of a computation started on [m]. *)
Definition outcome_of {A} (c : M A) (m : Machine) : Outcome A := fst (c m).
Definition machine_of {A} (c : M A) (m : Machine) : Machine := snd (c m).

(** The configuration rules as the specification lists them. *)
Inductive Rule : Type :=
| GithubTokenRequired
| ClubhouseTokenRequired
| ClubhouseProjectRequired
| GithubUrlRequired
| StateRecognized.

Definition all_rules : list Rule :=
  [GithubTokenRequired; ClubhouseTokenRequired; ClubhouseProjectRequired;
   GithubUrlRequired; StateRecognized].

(** A setting is missing when it is absent or has no character. *)
Definition missing (setting : option string) : bool :=
  match setting with
  | None => true
  | Some s => String.length s =? 0
  end.

(** The state filter is recognized when, case put aside, it is one of the
    three values. *)
Definition recognized (setting : option string) : bool :=
  match setting with
  | None => false
  | Some s =>
      if in_dec string_dec (Js.toLowerCase s) ["open"; "closed"; "all"]
      then true else false
  end.

Definition violated (options : Options.t) (rule : Rule) : bool :=
  match rule with
  | GithubTokenRequired => missing (Options.githubToken options)
  | ClubhouseTokenRequired => missing (Options.clubhouseToken options)
  | ClubhouseProjectRequired => missing (Options.clubhouseProject options)
  | GithubUrlRequired => missing (Options.githubUrl options)
  | StateRecognized => negb (recognized (Options.state options))
  end.

Definition violations (options : Options.t) : list Rule :=
  filter (violated options) all_rules.

(** The line printed for a violated rule. *)
Definition usage (rule : Rule) : Output :=
  match rule with
  | GithubTokenRequired => Log "Usage: --github-token arg is required"
  | ClubhouseTokenRequired => Log "Usage: --clubhouse-token arg is required"
  | ClubhouseProjectRequired => Log "Usage: --clubhouse-project arg is required"
  | GithubUrlRequired => Log "Usage: --github-url arg is required"
  | StateRecognized => Log "Usage: --state must be one of open | closed | all"
  end.

(** The network calls that post stories, and the stories they carry. *)
Definition is_bulk (c : NetCall) : bool :=
  match c with
  | BulkCreate _ _ => true
  | _ => false
  end.

Definition payload (c : NetCall) : list Story.t :=
  match c with
  | BulkCreate _ stories => stories
  | _ => []
  end.

Definition submitted (m : Machine) : list Story.t := flat_map payload (net m).

(** The lines that report a failure to the user. *)
Definition is_failure (o : Output) : bool :=
  match o with
  | Log _ | SpinnerFail _ => true
  | _ => false
  end.

Definition failures (m : Machine) : list Output := filter is_failure (out m).

(** The listing request [fetchGithubIssues] builds for a repository url. *)
Definition listing_request (options : Options.t) (githubUrl : string)
  : ListRequest.t :=
  {| ListRequest.auth := Options.githubToken options;
     ListRequest.owner := nth_error (Js.split "/"%char githubUrl) 0;
     ListRequest.repo := nth_error (Js.split "/"%char githubUrl) 1;
     ListRequest.per_page := 100;
     ListRequest.state := Options.state options |}.

Definition plain (issue : Issue.t) : bool :=
  negb (is_object (Issue.pull_request issue)).

(** The promises of the bulk-create requests posted for [batches], the
    first of which is network call number [n]. *)
Fixpoint posted_promises (w : World.t) (options : Options.t) (n : nat)
    (batches : list (list Story.t)) : list (Promise (list Z)) :=
  match batches with
  | [] => []
  | batch :: batches' =>
      mkPromise (World.latency w n)
        (createStories_settles
           (World.bulk w n (Options.clubhouseToken options) batch))
      :: posted_promises w options (S n) batches'
  end.

Definition rejects {A} (p : Promise A) : bool :=
  match settled p with
  | inl _ => true
  | inr _ => false
  end.

Definition created (p : Promise (list Z)) : nat :=
  match settled p with
  | inl _ => 0
  | inr added => List.length added
  end.

Definition not_defined : Js.Exception := Js.ReferenceError "issue is not defined".

Definition not_found_line (options : Options.t) : Output :=
  Log ("Clubhouse Project ID "
       ++ Js.template (Options.clubhouseProject options)
       ++ " could not be found")%string.

Definition project_lookup (options : Options.t) : NetCall :=
  GetProject (Options.clubhouseToken options) (Options.clubhouseProject options).

Definition batches_of (project : Project.t) (issues : list Issue.t)
  : list (list Story.t) :=
  Lodash.chunk (map (getStory (Project.id project)) issues) 10.

Definition retrieving : Output := SpinnerStart "Retrieving issues from Github".
Definition importing : Output := SpinnerStart "Importing issues into Clubhouse".

Definition retrieved (issues : list Issue.t) : Output :=
  SpinnerSucceed ("Retrieved " ++ Js.string_of_nat (List.length issues)
                  ++ " issues from Github")%string.

Definition fetch_failed (githubUrl : string) : Output :=
  SpinnerFail ("Failed to fetch issues from " ++ githubUrl ++ newline)%string.

Definition imported (issuesImported : option nat) : Output :=
  SpinnerSucceed ("Imported " ++ show_count issuesImported
                  ++ " issues into Clubhouse")%string.

(** The machine on which the submitter starts after a successful fetch. *)
Definition fetched (options : Options.t) (githubUrl : string)
    (issues : list Issue.t) : Machine :=
  {| out := [retrieving; retrieved issues; importing];
     net := [ListForRepo (listing_request options githubUrl)] |}.

(** Some label of [labels] has [word] in its name, letter case kept. *)
Definition labelled (word : string) (labels : list Label.t) : Prop :=
  exists label, In label labels /\ occurs_in word (Label.name label).

(** The number of fetched items that are not pull requests. *)
Fixpoint count_issues (data : list Issue.t) : nat :=
  match data with
  | [] => 0
  | item :: data' =>
      match Issue.pull_request item with
      | None => S (count_issues data')
      | Some _ => count_issues data'
      end
  end.

(** The world [w] with other times for the bulk-create requests. *)
Definition with_latency (w : World.t) (latency : nat -> nat) : World.t :=
  {| World.paginate := World.paginate w;
     World.getProject := World.getProject w;
     World.bulk := World.bulk w;
     World.latency := latency |}.

(** The listing requests and the project lookups among the network calls. *)
Definition is_listing (c : NetCall) : bool :=
  match c with
  | ListForRepo _ => true
  | _ => false
  end.

Definition is_lookup (c : NetCall) : bool :=
  match c with
  | GetProject _ _ => true
  | _ => false
  end.

(** The four rules on the required settings. *)
Definition required_rules : list Rule :=
  [GithubTokenRequired; ClubhouseTokenRequired; ClubhouseProjectRequired;
   GithubUrlRequired].

(** A setting that is there: a string with at least one character. *)
Definition present (setting : option string) : Prop :=
  exists s, setting = Some s /\ s <> EmptyString.

(** The options with another state filter. *)
Definition with_state (options : Options.t) (state : option string)
  : Options.t :=
  {| Options.githubToken := Options.githubToken options;
     Options.clubhouseToken := Options.clubhouseToken options;
     Options.clubhouseProject := Options.clubhouseProject options;
     Options.githubUrl := Options.githubUrl options;
     Options.state := state |}.

(** The text of an output. *)
Definition line_of (o : Output) : string :=
  match o with
  | Log line => line
  | LogBlank => EmptyString
  | SpinnerStart text | SpinnerSucceed text | SpinnerFail text => text
  end.

(** A text without [/]. *)
Definition slash_free (s : string) : Prop :=
  forall before after : string, s <> (before ++ "/" ++ after)%string.

(* ------------------------------------------------------------------ *)
(** ** Sample inputs *)

Module Sample.

Definition options : Options.t :=
  {| Options.githubToken := Some "gh-token";
     Options.clubhouseToken := Some "ch-token";
     Options.clubhouseProject := Some "7";
     Options.githubUrl := Some "takeshape/takeshape";
     Options.state := Some "open" |}.

Definition issue (n : nat) : Issue.t :=
  {| Issue.html_url :=
       ("https://github.com/takeshape/takeshape/issues/" ++ Js.string_of_nat n)%string;
     Issue.created_at := "2019-05-01T10:00:00Z";
     Issue.updated_at := "2019-05-02T08:30:00Z";
     Issue.labels := [];
     Issue.title := ("Issue " ++ Js.string_of_nat n)%string;
     Issue.body := None;
     Issue.pull_request := None |}.

Definition pull (n : nat) : Issue.t :=
  {| Issue.html_url :=
       ("https://github.com/takeshape/takeshape/pull/" ++ Js.string_of_nat n)%string;
     Issue.created_at := "2019-05-03T10:00:00Z";
     Issue.updated_at := "2019-05-03T11:00:00Z";
     Issue.labels := [];
     Issue.title := ("Pull " ++ Js.string_of_nat n)%string;
     Issue.body := Some "Fixes the build";
     Issue.pull_request :=
       Some {| PullRequest.url :=
                 ("https://api.github.com/repos/takeshape/takeshape/pulls/"
                  ++ Js.string_of_nat n)%string |} |}.

(** Twenty-five issues: batches of 10, 10 and 5. *)
Definition issues25 : list Issue.t := map issue (seq 1 25).

Definition project : Project.t := {| Project.id := 7 |}.

(** Clubhouse creates every story of a batch it accepts. *)
Definition accept (stories : list Story.t) : BulkResponse :=
  Accepted (map (fun story => Z.of_nat (String.length (Story.name story))) stories).

(** Both services answer; every batch is accepted; the later a batch is
    posted, the sooner it is answered. *)
Definition world (data : list Issue.t) : World.t :=
  {| World.paginate := fun _ => inr data;
     World.getProject := fun _ _ => inr project;
     World.bulk := fun _ _ stories => accept stories;
     World.latency := fun n => 10 - n |}.

(** As [world], but Clubhouse rejects the bulk-create request that is
    network call number [n]. *)
Definition world_rejecting (n : nat) (data : list Issue.t) : World.t :=
  {| World.paginate := fun _ => inr data;
     World.getProject := fun _ _ => inr project;
     World.bulk := fun k _ stories =>
       if k =? n then Rejected "Unprocessable Entity" "{}" else accept stories;
     World.latency := fun k => 10 - k |}.

(** Clubhouse does not know the project. *)
Definition world_without_project (data : list Issue.t) : World.t :=
  {| World.paginate := fun _ => inr data;
     World.getProject := fun _ _ =>
       inl (Js.Error "Request failed with status code 404");
     World.bulk := fun _ _ stories => accept stories;
     World.latency := fun n => n |}.

(** As [world], but Clubhouse answers every bulk-create request with the
    same array [body], whatever the batch. *)
Definition world_answering (body : list Z) (data : list Issue.t) : World.t :=
  {| World.paginate := fun _ => inr data;
     World.getProject := fun _ _ => inr project;
     World.bulk := fun _ _ _ => Accepted body;
     World.latency := fun n => n |}.

(** GitHub refuses the listing. *)
Definition world_without_github : World.t :=
  {| World.paginate := fun _ => inl (Js.LibraryError "HttpError" "Bad credentials");
     World.getProject := fun _ _ => inr project;
     World.bulk := fun _ _ stories => accept stories;
     World.latency := fun n => n |}.

End Sample.

(* ------------------------------------------------------------------ *)
(** * Properties *)

(** ** Strings *)

Module JsFacts.

Lemma startsWith_spec (needle s : string) :
  Js.startsWith s needle = true <-> exists after, s = (needle ++ after)%string.
Proof.
  revert s; induction needle as [|a needle IH]; intros s.
  - split; [intros _; now exists s | now destruct s].
  - destruct s as [|b s]; simpl.
    + split; [discriminate | intros [after H]; discriminate].
    + rewrite andb_true_iff, Ascii.eqb_eq, IH. split.
      * intros [-> [after ->]]. now exists after.
      * intros [after H]. injection H as -> ->. split; [reflexivity | now exists after].
Qed.

Lemma includes_unfold (needle s : string) :
  Js.includes s needle
  = Js.startsWith s needle
    || match s with
       | EmptyString => false
       | String _ s' => Js.includes s' needle
       end.
Proof. now destruct s. Qed.

Lemma includes_spec (needle s : string) :
  Js.includes s needle = true <-> occurs_in needle s.
Proof.
  induction s as [|c s IH]; rewrite includes_unfold.
  - rewrite orb_false_r, startsWith_spec. split.
    + intros [after H]. now exists EmptyString, after.
    + intros [[|b before] [after H]]; [now exists after | discriminate].
  - rewrite orb_true_iff, startsWith_spec, IH. split.
    + intros [[after H] | [before [after H]]].
      * now exists EmptyString, after.
      * exists (String c before), after. simpl. now rewrite H.
    + intros [[|b before] [after H]].
      * left. now exists after.
      * right. simpl in H. injection H as _ H. now exists before, after.
Qed.

End JsFacts.

(** ** Batching *)

Module LodashFacts.
Import Lodash.

Section ChunkFacts.
Context {A : Type}.
Implicit Types (array : list A) (size index fuel : nat).

Lemma slice_length_le array start size :
  List.length (slice array start (start + size)) <= size.
Proof.
  unfold slice. replace (start + size - start) with size by lia.
  apply firstn_le_length.
Qed.

Lemma chunk_loop_sizes fuel array size index :
  Forall (fun batch => List.length batch <= size)
         (chunk_loop fuel array size index).
Proof.
  revert index; induction fuel as [|fuel IH]; intros index; simpl.
  - constructor.
  - destruct (index <? List.length array); constructor.
    + apply slice_length_le.
    + apply IH.
Qed.

Lemma chunk_loop_concat fuel array size index :
  1 <= size -> List.length array - index <= fuel ->
  List.concat (chunk_loop fuel array size index) = skipn index array.
Proof.
  intros Hsize. revert index; induction fuel as [|fuel IH]; intros index Hfuel; simpl.
  - symmetry. apply skipn_all2. lia.
  - destruct (index <? List.length array) eqn:Hlt.
    + apply Nat.ltb_lt in Hlt. simpl. rewrite IH by lia.
      unfold slice. replace (index + size - index) with size by lia.
      rewrite (Nat.add_comm index size), <- skipn_skipn.
      apply firstn_skipn.
    + apply Nat.ltb_ge in Hlt. symmetry. now apply skipn_all2.
Qed.

Lemma chunk_loop_nonempty fuel array size index :
  1 <= size ->
  Forall (fun batch => batch <> []) (chunk_loop fuel array size index).
Proof.
  intros Hsize. revert index; induction fuel as [|fuel IH]; intros index; simpl.
  - constructor.
  - destruct (index <? List.length array) eqn:Hlt; constructor; [|apply IH].
    apply Nat.ltb_lt in Hlt. intros Hnil.
    apply (f_equal (@List.length A)) in Hnil. unfold slice in Hnil.
    rewrite length_firstn, length_skipn in Hnil. simpl in Hnil. lia.
Qed.

(** The [i]-th batch is the slice of the array from [i * size]. *)
Lemma chunk_loop_nth fuel array size index i batch :
  nth_error (chunk_loop fuel array size index) i = Some batch ->
  batch = slice array (index + i * size) (index + i * size + size).
Proof.
  revert index i; induction fuel as [|fuel IH]; intros index i; simpl.
  - destruct i; discriminate.
  - destruct (index <? List.length array); [|destruct i; discriminate].
    destruct i as [|i]; simpl.
    + intros [= <-]. now rewrite Nat.add_0_r.
    + intros H. apply IH in H. rewrite H. f_equal; lia.
Qed.

Lemma chunk_sizes array size :
  Forall (fun batch => List.length batch <= size) (chunk array size).
Proof.
  unfold chunk. destruct (_ || _); [constructor | apply chunk_loop_sizes].
Qed.

Lemma chunk_concat array size :
  1 <= size -> List.concat (chunk array size) = array.
Proof.
  intros Hsize. unfold chunk.
  destruct (List.length array =? 0) eqn:Hlen; simpl.
  - apply Nat.eqb_eq in Hlen. now destruct array.
  - destruct (size <? 1) eqn:Hlt; [apply Nat.ltb_lt in Hlt; lia|].
    rewrite chunk_loop_concat by lia. reflexivity.
Qed.

Lemma chunk_nonempty array size :
  Forall (fun batch => batch <> []) (chunk array size).
Proof.
  unfold chunk. destruct (List.length array =? 0); simpl; [constructor|].
  destruct (size <? 1) eqn:Hlt; [constructor|].
  apply chunk_loop_nonempty. apply Nat.ltb_ge in Hlt. lia.
Qed.

Lemma chunk_nth array size i batch :
  nth_error (chunk array size) i = Some batch ->
  batch = slice array (i * size) (i * size + size).
Proof.
  unfold chunk. destruct (_ || _); [destruct i; discriminate|].
  intros H. now apply chunk_loop_nth in H.
Qed.

Lemma chunk_nil size : chunk (@nil A) size = [].
Proof. reflexivity. Qed.

End ChunkFacts.

End LodashFacts.

(** ** Running the code *)

Module Run.

Lemma falsy_missing (setting : option string) :
  Js.falsy setting = missing setting.
Proof. destruct setting as [[|c s]|]; reflexivity. Qed.

Lemma array_includes_recognized (s : string) :
  Js.array_includes recognized_states (Js.toLowerCase s) = recognized (Some s).
Proof.
  unfold recognized, Js.array_includes, recognized_states.
  destruct (in_dec _ _ _) as [Hin | Hout].
  - apply existsb_exists. exists (Js.toLowerCase s). split; [assumption|].
    apply String.eqb_refl.
  - destruct (existsb _ _) eqn:Hex; [|reflexivity].
    apply existsb_exists in Hex. destruct Hex as [x [Hin Heq]].
    apply String.eqb_eq in Heq. subst x. contradiction.
Qed.

(** [validateOptions] on a configuration whose state filter is a string:
    it prints the line of every violated rule, in the order of the rules,
    and exits with status 1 when there is one; it returns otherwise. *)
Lemma validateOptions_run (options : Options.t) (s : string) (m : Machine) :
  Options.state options = Some s ->
  validateOptions options m
  = match violations options with
    | [] => (Return tt, m)
    | _ :: _ =>
        (Exit 1%Z,
         {| out := out m ++ map usage (violations options) ++ [LogBlank];
            net := net m |})
    end.
Proof.
  destruct options as [gt ct cp gu st], m as [o n].
  cbn [Options.state]. intros ->.
  unfold violations, all_rules, violated.
  cbv beta iota delta
    [validateOptions bind ret Options.githubToken Options.clubhouseToken
     Options.clubhouseProject Options.githubUrl Options.state filter].
  rewrite array_includes_recognized, !falsy_missing.
  destruct (missing gt), (missing ct), (missing cp), (missing gu),
    (recognized (Some s));
    cbv [bind log emit ret process_exit out net negb map usage];
    repeat rewrite <- app_assoc; reflexivity.
Qed.

(** [validateOptions] on a configuration without a state filter raises,
    whatever the other settings are: it reads [options.state.toLowerCase]. *)
Lemma validateOptions_no_state (options : Options.t) (m : Machine) :
  Options.state options = None ->
  exists message, outcome_of (validateOptions options) m
                  = Throw (Js.TypeError message).
Proof.
  destruct options as [gt ct cp gu st], m as [o n].
  cbn [Options.state]. intros ->.
  exists "Cannot read property 'toLowerCase' of undefined".
  unfold outcome_of, validateOptions.
  cbn [Options.githubToken Options.clubhouseToken Options.clubhouseProject
       Options.githubUrl Options.state].
  destruct (Js.falsy gt), (Js.falsy ct), (Js.falsy cp), (Js.falsy gu);
    reflexivity.
Qed.

Lemma fetchGithubIssues_run (w : World.t) (options : Options.t)
    (githubUrl : string) (m : Machine) :
  Options.githubUrl options = Some githubUrl ->
  fetchGithubIssues w options m
  = (match World.paginate w (listing_request options githubUrl) with
     | inl e => Throw e
     | inr data => Return (filter plain data)
     end,
     {| out := out m;
        net := net m ++ [ListForRepo (listing_request options githubUrl)] |}).
Proof.
  intros Hurl. unfold fetchGithubIssues. rewrite Hurl.
  fold (listing_request options githubUrl).
  cbv beta iota delta [bind ret octokit_paginate send await settled throw].
  destruct (World.paginate w _); reflexivity.
Qed.

Lemma post_batches_run (w : World.t) (options : Options.t)
    (batches : list (list Story.t)) (m : Machine) :
  post_batches w options batches m
  = (Return (posted_promises w options (List.length (net m)) batches),
     {| out := out m;
        net := net m ++ map (BulkCreate (Options.clubhouseToken options)) batches |}).
Proof.
  revert m; induction batches as [|batch batches IH]; intros [o n].
  - cbn. now rewrite app_nil_r.
  - cbn [post_batches].
    cbv beta iota delta [bind ret createStories calls_so_far send out net].
    rewrite IH. cbn [out net posted_promises map].
    rewrite length_app, Nat.add_1_r, <- app_assoc. reflexivity.
Qed.

(** *** Settling of the batches *)

Lemma arrive_permutation {A} (p : Promise A) (queue : list (Promise A)) :
  Permutation (p :: queue) (arrive p queue).
Proof.
  induction queue as [|q queue IH]; simpl.
  - reflexivity.
  - destruct (ready_at p <=? ready_at q).
    + reflexivity.
    + rewrite perm_swap. now constructor.
Qed.

(** Every posted request settles once: the arrival order is a permutation
    of the posting order. *)
Lemma arrival_order_permutation {A} (posted : list (Promise A)) :
  Permutation posted (arrival_order posted).
Proof.
  induction posted as [|p posted IH]; simpl.
  - constructor.
  - rewrite <- arrive_permutation. now constructor.
Qed.

Lemma resume_all_accepted (arrived : list (Promise (list Z))) (n : nat) :
  forallb (fun p => negb (rejects p)) arrived = true ->
  resume_all arrived n = inr (n + list_sum (map created arrived)).
Proof.
  revert n; induction arrived as [|p arrived IH]; intros n;
    cbn [forallb map list_sum resume_all].
  - intros _. now rewrite Nat.add_0_r.
  - unfold rejects at 1, batch_settled. unfold created at 1.
    destruct (settled p) as [e | added]; cbn [negb andb]; [discriminate|].
    intros H. rewrite IH by assumption. f_equal. simpl. lia.
Qed.

Lemma resume_all_rejected (arrived : list (Promise (list Z))) (n : nat) :
  existsb rejects arrived = true ->
  resume_all arrived n = inl not_defined.
Proof.
  revert n; induction arrived as [|p arrived IH]; intros n; simpl.
  - discriminate.
  - unfold rejects at 1, batch_settled.
    destruct (settled p) as [e | added]; simpl; [reflexivity|].
    apply IH.
Qed.

Lemma existsb_permutation {A} (f : A -> bool) (l l' : list A) :
  Permutation l l' -> existsb f l = existsb f l'.
Proof.
  induction 1; simpl; try congruence.
  now rewrite !orb_assoc, (orb_comm (f y)).
Qed.

Lemma forallb_permutation {A} (f : A -> bool) (l l' : list A) :
  Permutation l l' -> forallb f l = forallb f l'.
Proof.
  induction 1; simpl; try congruence.
  now rewrite !andb_assoc, (andb_comm (f y)).
Qed.

Lemma list_sum_permutation (l l' : list nat) :
  Permutation l l' -> list_sum l = list_sum l'.
Proof. induction 1; simpl; lia. Qed.

Lemma forallb_negb_existsb {A} (f : A -> bool) (l : list A) :
  forallb (fun x => negb (f x)) l = negb (existsb f l).
Proof.
  induction l as [|x l IH]; simpl; [reflexivity|].
  now rewrite IH, negb_orb.
Qed.

(** What [await Promise.all(...)] yields does not depend on the order in
    which the requests settle: a rejected batch anywhere makes it raise, and
    it gives the sum of the created counts otherwise. *)
Lemma promise_all_result (posted : list (Promise (list Z))) (n : nat) :
  resume_all (arrival_order posted) n
  = if existsb rejects posted then inl not_defined
    else inr (n + list_sum (map created posted)).
Proof.
  pose proof (arrival_order_permutation posted) as Hperm.
  destruct (existsb rejects posted) eqn:Hex.
  - apply resume_all_rejected.
    now rewrite <- (existsb_permutation _ _ _ Hperm).
  - rewrite resume_all_accepted.
    + f_equal. f_equal. symmetry. apply list_sum_permutation.
      now apply Permutation_map.
    + rewrite <- (forallb_permutation _ _ _ Hperm), forallb_negb_existsb.
      now rewrite Hex.
Qed.

(** *** [importIssuesToClubhouse] *)

Lemma importIssuesToClubhouse_run (w : World.t) (options : Options.t)
    (issues : list Issue.t) (m : Machine) :
  importIssuesToClubhouse w options issues m
  = match World.getProject w (Options.clubhouseToken options)
            (Options.clubhouseProject options) with
    | inl _ =>
        (Return None,
         {| out := out m ++ [not_found_line options];
            net := net m ++ [project_lookup options] |})
    | inr project =>
        let batches := batches_of project issues in
        let posted :=
          posted_promises w options (S (List.length (net m))) batches in
        let calls :=
          net m ++ project_lookup options
                :: map (BulkCreate (Options.clubhouseToken options)) batches in
        if existsb rejects posted
        then (Return None,
              {| out := out m ++ [not_found_line options]; net := calls |})
        else (Return (Some (list_sum (map created posted))),
              {| out := out m; net := calls |})
    end.
Proof.
  destruct m as [o n]. unfold importIssuesToClubhouse, try_catch.
  cbv beta iota delta [bind ret clubhouse_getProject send await settled throw
                       out net] .
  destruct (World.getProject w _ _) as [e | project].
  - reflexivity.
  - rewrite post_batches_run. cbn [out net].
    fold (batches_of project issues).
    rewrite length_app, Nat.add_1_r.
    unfold promise_all. rewrite promise_all_result.
    rewrite <- app_assoc. cbn [app].
    destruct (existsb rejects _); reflexivity.
Qed.

(** *** [githubClubhouseImport] *)

(** A configuration without violation has every setting. *)
Lemma valid_settings (options : Options.t) :
  violations options = [] ->
  exists githubUrl state,
    Options.githubUrl options = Some githubUrl
    /\ Options.state options = Some state
    /\ recognized (Some state) = true.
Proof.
  destruct options as [gt ct cp gu st].
  unfold violations, all_rules, violated.
  cbn [filter Options.githubToken Options.clubhouseToken
       Options.clubhouseProject Options.githubUrl Options.state].
  destruct (missing gt), (missing ct), (missing cp); cbv iota;
    try discriminate.
  destruct gu as [githubUrl|]; cbn [missing]; [|discriminate].
  destruct (String.length githubUrl =? 0); cbv iota; [discriminate|].
  destruct st as [state|]; [|discriminate].
  destruct (recognized (Some state)) eqn:Hrec; cbn [negb]; cbv iota;
    [|discriminate].
  intros _. now exists githubUrl, state.
Qed.

Lemma githubClubhouseImport_run (w : World.t) (options : Options.t)
    (githubUrl : string) :
  violations options = [] ->
  Options.githubUrl options = Some githubUrl ->
  githubClubhouseImport w options boot
  = match World.paginate w (listing_request options githubUrl) with
    | inl e =>
        (Return tt,
         {| out := [retrieving; fetch_failed githubUrl; Log (Js.render e)];
            net := [ListForRepo (listing_request options githubUrl)] |})
    | inr data =>
        match importIssuesToClubhouse w options (filter plain data)
                (fetched options githubUrl (filter plain data)) with
        | (Return issuesImported, m) =>
            (Return tt,
             {| out := out m ++ [imported issuesImported]; net := net m |})
        | (Throw e, m) => (Throw e, m)
        | (Exit code, m) => (Exit code, m)
        end
    end.
Proof.
  intros Hvalid Hurl.
  destruct (valid_settings options Hvalid) as [url' [state [_ [Hstate _]]]].
  unfold githubClubhouseImport.
  unfold bind at 1. rewrite (validateOptions_run options state boot Hstate), Hvalid.
  unfold bind at 1. cbn [emit boot out net app].
  unfold bind at 1, try_catch. unfold bind at 1.
  rewrite (fetchGithubIssues_run w options githubUrl _ Hurl). cbn [out net app].
  rewrite Hurl. cbn [Js.template].
  destruct (World.paginate w _) as [e | data].
  - reflexivity.
  - cbv beta iota delta [bind emit ret out net]. cbn [app].
    fold retrieving importing (retrieved (filter plain data)).
    fold (fetched options githubUrl (filter plain data)).
    destruct (importIssuesToClubhouse w options _ _) as [[n | e | code] m];
      reflexivity.
Qed.

Lemma posted_rejects (w : World.t) (options : Options.t)
    (batches : list (list Story.t)) (n i : nat) (batch : list Story.t)
    (e : Js.Exception) :
  nth_error batches i = Some batch ->
  createStories_settles
    (World.bulk w (n + i) (Options.clubhouseToken options) batch) = inl e ->
  existsb rejects (posted_promises w options n batches) = true.
Proof.
  revert n i; induction batches as [|b batches IH]; intros n i Hnth Hset.
  - destruct i; discriminate.
  - cbn [posted_promises existsb]. destruct i as [|i]; cbn [nth_error] in Hnth.
    + injection Hnth as ->. rewrite Nat.add_0_r in Hset.
      unfold rejects at 1. cbn [settled]. now rewrite Hset.
    + apply orb_true_iff. right. apply (IH (S n) i); [assumption|].
      now replace (S n + i) with (n + S i) by lia.
Qed.

Lemma posted_accepts (w : World.t) (options : Options.t)
    (batches : list (list Story.t)) (n : nat) :
  (forall i batch, nth_error batches i = Some batch ->
     exists added,
       World.bulk w (n + i) (Options.clubhouseToken options) batch
       = Accepted added) ->
  existsb rejects (posted_promises w options n batches) = false.
Proof.
  revert n; induction batches as [|b batches IH]; intros n Hall.
  - reflexivity.
  - cbn [posted_promises existsb]. apply orb_false_iff. split.
    + destruct (Hall 0 b eq_refl) as [added Hadded].
      rewrite Nat.add_0_r in Hadded. unfold rejects. cbn [settled].
      now rewrite Hadded.
    + apply IH. intros i batch Hnth.
      replace (S n + i) with (n + S i) by lia. now apply Hall.
Qed.

Lemma flat_map_payload_bulk (token : option string)
    (batches : list (list Story.t)) :
  flat_map payload (map (BulkCreate token) batches) = List.concat batches.
Proof.
  induction batches as [|b batches IH]; simpl; [reflexivity|].
  now rewrite IH.
Qed.

End Run.

(** ** The code on the sample inputs *)

Example getStoryType_priority :
  getStoryType [ {| Label.name := "bug"; Label.color := "d73a4a" |};
                 {| Label.name := "chore"; Label.color := "ededed" |} ] = bug
  /\ getStoryType [ {| Label.name := "chore"; Label.color := "ededed" |} ] = chore
  /\ getStoryType [] = feature
  /\ getStoryType [ {| Label.name := "enhancement"; Label.color := "a2eeef" |} ]
     = feature.
Proof. repeat split; reflexivity. Qed.

Example chunk_25 :
  map (@List.length _) (Lodash.chunk Sample.issues25 10) = [10; 10; 5].
Proof. reflexivity. Qed.

Example import_25_all_accepted :
  importIssuesToClubhouse (Sample.world Sample.issues25) Sample.options
    Sample.issues25 boot
  = (Return (Some 25),
     {| out := [];
        net := project_lookup Sample.options
               :: map (BulkCreate (Some "ch-token"))
                    (batches_of Sample.project Sample.issues25) |}).
Proof. vm_compute. reflexivity. Qed.

Example split_owner_repo :
  Js.split "/"%char "takeshape/takeshape" = ["takeshape"; "takeshape"].
Proof. reflexivity. Qed.

(* ------------------------------------------------------------------ *)
(** * The claims of the specification *)

Import JsFacts.

(** ** The mapper *)

(** C7.  The mapper is a function of the project id and the issue alone, and
    the story it gives has: the issue's title as name; the issue's body as
    description, or the empty string when there is no body; the issue's url
    as external id; the two timestamps unchanged; the project id it was
    given; and for every label of the issue, at the same position, a label
    of the same name whose color is the original one after a [#]. *)
Theorem getStory_fields (project_id : Z) (issue : Issue.t) :
  let story := getStory project_id issue in
  Story.name story = Issue.title issue
  /\ Story.description story
     = match Issue.body issue with
       | Some text => text
       | None => EmptyString
       end
  /\ Story.external_id story = Issue.html_url issue
  /\ Story.created_at story = Issue.created_at issue
  /\ Story.updated_at story = Issue.updated_at issue
  /\ Story.project_id story = project_id
  /\ List.length (Story.labels story) = List.length (Issue.labels issue)
  /\ (forall i label,
        nth_error (Issue.labels issue) i = Some label <->
        nth_error (Story.labels story) i
        = Some {| Label.name := Label.name label;
                  Label.color := String "#" (Label.color label) |}).
Proof.
  cbn zeta. unfold getStory. cbn [Story.name Story.description
    Story.external_id Story.created_at Story.updated_at Story.project_id
    Story.labels].
  repeat split.
  - unfold or_empty. destruct (Issue.body issue) as [text|]; [|reflexivity].
    destruct (String.eqb_spec text ""); congruence.
  - apply length_map.
  - intros Hnth. rewrite nth_error_map, Hnth. reflexivity.
  - rewrite nth_error_map.
    destruct (nth_error (Issue.labels issue) i) as [[name color]|];
      [|discriminate].
    destruct label as [name' color']. cbn.
    intros [= -> ->]. reflexivity.
Qed.

(** The color of the specification's example. *)
Example getStory_color :
  Story.labels
    (getStory 7 {| Issue.html_url := "https://github.com/o/r/issues/1";
                   Issue.created_at := "2019-05-01T10:00:00Z";
                   Issue.updated_at := "2019-05-01T10:00:00Z";
                   Issue.labels := [ {| Label.name := "urgent";
                                        Label.color := "ff0000" |} ];
                   Issue.title := "Crash on start";
                   Issue.body := None;
                   Issue.pull_request := None |})
  = [ {| Label.name := "urgent"; Label.color := "#ff0000" |} ].
Proof. reflexivity. Qed.

Lemma find_includes (word : string) (labels : list Label.t) :
  (exists label,
     find (fun label => Js.includes (Label.name label) word) labels = Some label)
  <-> labelled word labels.
Proof.
  split.
  - intros [label Hfind]. apply find_some in Hfind. destruct Hfind as [Hin Hinc].
    exists label. split; [assumption|]. now apply includes_spec.
  - intros [label [Hin Hocc]].
    destruct (find _ labels) as [found|] eqn:Hfind; [now exists found|].
    apply (find_none _ _ Hfind) in Hin. apply includes_spec in Hocc.
    cbv beta in Hin. congruence.
Qed.

(** C3, as the code has it.  The category is found by substring match with
    the letter case kept, in priority order: [bug] when some label name
    contains "bug"; otherwise [chore] when some label name contains "chore";
    otherwise, and for an issue without label, [feature]. *)
Theorem getStoryType_case_sensitive (labels : list Label.t) :
  (getStoryType labels = bug <-> labelled "bug" labels)
  /\ (getStoryType labels = chore
      <-> ~ labelled "bug" labels /\ labelled "chore" labels)
  /\ (getStoryType labels = feature
      <-> ~ labelled "bug" labels /\ ~ labelled "chore" labels)
  /\ getStoryType [] = feature.
Proof.
  pose proof (find_includes "bug" labels) as Hbug.
  pose proof (find_includes "chore" labels) as Hchore.
  unfold getStoryType.
  destruct (find _ labels) as [b|] eqn:Eb.
  - assert (labelled "bug" labels) as Hb by (apply Hbug; now exists b).
    repeat split; try discriminate; try tauto.
  - assert (~ labelled "bug" labels) as Hb
        by (intros H; apply Hbug in H; destruct H; congruence).
    clear Eb Hbug.
    destruct (find _ labels) as [c|] eqn:Ec.
    + assert (labelled "chore" labels) as Hc by (apply Hchore; now exists c).
      repeat split; try discriminate; try tauto.
    + assert (~ labelled "chore" labels) as Hc
          by (intros H; apply Hchore in H; destruct H; congruence).
      repeat split; try discriminate; try tauto.
Qed.

(** C3, as the specification states it, fails: the label name "Bug"
    contains "bug" once letter case is put aside, and the category is
    [feature]. *)
Lemma getStoryType_not_case_insensitive :
  let labels := [ {| Label.name := "Bug"; Label.color := "d73a4a" |} ] in
  (exists label,
     In label labels /\ occurs_in "bug" (Js.toLowerCase (Label.name label)))
  /\ getStoryType labels = feature
  /\ getStoryType labels <> bug.
Proof.
  cbn zeta. split; [|split; [reflexivity | discriminate]].
  eexists. split; [left; reflexivity|].
  exists EmptyString, EmptyString. reflexivity.
Qed.

(** ** Batching *)

(** C6.  The partition of the mapped records into batches of ten: no batch
    has more than ten records (and none is empty), the [i]-th batch is the
    run of records from position [10 * i], and the batches put end to end
    give the records back, none dropped, repeated or moved. *)
Theorem chunk_partition (stories : list Story.t) :
  let batches := Lodash.chunk stories 10 in
  Forall (fun batch => 1 <= List.length batch <= 10) batches
  /\ (forall i batch,
        nth_error batches i = Some batch ->
        batch = firstn 10 (skipn (10 * i) stories))
  /\ List.concat batches = stories.
Proof.
  cbn zeta. split; [|split].
  - pose proof (LodashFacts.chunk_sizes stories 10) as Hmax.
    pose proof (LodashFacts.chunk_nonempty stories 10) as Hmin.
    rewrite Forall_forall in *. intros batch Hin.
    specialize (Hmax batch Hin). specialize (Hmin batch Hin).
    destruct batch; [congruence | simpl in *; lia].
  - intros i batch Hnth. apply LodashFacts.chunk_nth in Hnth.
    rewrite Hnth. unfold Lodash.slice.
    replace (i * 10 + 10 - i * 10) with 10 by lia.
    now rewrite (Nat.mul_comm i 10).
  - apply LodashFacts.chunk_concat. lia.
Qed.

(** ** The submitter *)

Import Run.

(** When every batch is accepted, the importer returns the sum of the
    created counts, whatever the order in which the answers arrive. *)
Lemma all_accepted_sum (w : World.t) (options : Options.t)
    (issues : list Issue.t) (m : Machine) (project : Project.t) :
  World.getProject w (Options.clubhouseToken options)
    (Options.clubhouseProject options) = inr project ->
  (forall i batch,
     nth_error (batches_of project issues) i = Some batch ->
     exists added,
       World.bulk w (S (List.length (net m)) + i)
         (Options.clubhouseToken options) batch = Accepted added) ->
  outcome_of (importIssuesToClubhouse w options issues) m
  = Return (Some (list_sum (map created
       (posted_promises w options (S (List.length (net m)))
          (batches_of project issues))))).
Proof.
  intros Hproject Hall. unfold outcome_of.
  rewrite importIssuesToClubhouse_run, Hproject. cbn zeta.
  now rewrite (posted_accepts w options _ _ Hall).
Qed.

(** C1, on the code.  When the project resolves and the submission of some
    batch fails, every batch has been posted, but the importer leaves
    through its outer [catch]: it returns [undefined], not a count, and the
    one line it prints is the project-not-found line; no line about the
    batch is printed.  The [catch] of the batch raises on [issue.number]. *)
Theorem failed_batch_abandons_count (w : World.t) (options : Options.t)
    (issues : list Issue.t) (m : Machine) (project : Project.t)
    (i : nat) (batch : list Story.t) (e : Js.Exception) :
  World.getProject w (Options.clubhouseToken options)
    (Options.clubhouseProject options) = inr project ->
  nth_error (batches_of project issues) i = Some batch ->
  createStories_settles
    (World.bulk w (S (List.length (net m)) + i)
       (Options.clubhouseToken options) batch) = inl e ->
  importIssuesToClubhouse w options issues m
  = (Return None,
     {| out := out m ++ [not_found_line options];
        net := net m ++ project_lookup options
               :: map (BulkCreate (Options.clubhouseToken options))
                    (batches_of project issues) |}).
Proof.
  intros Hproject Hnth Hfails.
  rewrite importIssuesToClubhouse_run, Hproject. cbn zeta.
  now rewrite (posted_rejects w options _ _ i batch e Hnth Hfails).
Qed.

(** The 25 issues of the specification's example, the second batch
    rejected: the result is [undefined] where 15 is expected. *)
Lemma failed_batch_abandons_count_witness :
  let w := Sample.world_rejecting 2 Sample.issues25 in
  let run := importIssuesToClubhouse w Sample.options Sample.issues25 boot in
  map (@List.length _) (batches_of Sample.project Sample.issues25) = [10; 10; 5]
  /\ fst run = Return None
  /\ fst run <> Return (Some 15)
  /\ out (snd run) = [Log "Clubhouse Project ID 7 could not be found"]
  /\ map (fun call => List.length (payload call)) (net (snd run))
     = [0; 10; 10; 5].
Proof.
  cbn zeta.
  rewrite (failed_batch_abandons_count
             (Sample.world_rejecting 2 Sample.issues25) Sample.options
             Sample.issues25 boot Sample.project 1
             (map (getStory 7) (map Sample.issue (seq 11 10)))
             (Js.Error (String.append "Unprocessable Entity:"
                          (String.append newline "{}")))
             eq_refl eq_refl eq_refl).
  repeat split; try reflexivity. discriminate.
Defined.

(** C9.  With no issue to import the submitter posts nothing, and once the
    project is resolved the importer returns 0. *)
Theorem no_issue_no_call (w : World.t) (options : Options.t) (m : Machine) :
  let run := importIssuesToClubhouse w options [] m in
  filter is_bulk (net (snd run)) = filter is_bulk (net m)
  /\ submitted (snd run) = submitted m
  /\ (forall project,
        World.getProject w (Options.clubhouseToken options)
          (Options.clubhouseProject options) = inr project ->
        fst run = Return (Some 0)
        /\ snd run = {| out := out m;
                        net := net m ++ [project_lookup options] |}).
Proof.
  cbn zeta. rewrite importIssuesToClubhouse_run.
  destruct (World.getProject w _ _) as [e | project]; cbn zeta.
  - cbn [snd net]. unfold submitted. cbn [net].
    rewrite filter_app, flat_map_app. cbn. rewrite !app_nil_r.
    repeat split; discriminate.
  - unfold batches_of. cbn [map]. rewrite LodashFacts.chunk_nil.
    cbn [posted_promises existsb map list_sum snd fst net].
    unfold submitted. cbn [net].
    rewrite filter_app, flat_map_app. cbn. rewrite !app_nil_r.
    repeat split.
Qed.

Lemma no_issue_no_call_witness :
  let run :=
    importIssuesToClubhouse (Sample.world []) Sample.options [] boot in
  fst run = Return (Some 0)
  /\ net (snd run) = [GetProject (Some "ch-token") (Some "7")].
Proof.
  cbn zeta.
  destruct (no_issue_no_call (Sample.world []) Sample.options boot)
    as [_ [_ H]].
  destruct (H Sample.project eq_refl) as [Hfst Hsnd].
  split; [exact Hfst | now rewrite Hsnd].
Defined.

(** ** The orchestrator *)

Lemma filter_plain_length (data : list Issue.t) :
  List.length (filter plain data) = count_issues data.
Proof.
  induction data as [|item data IH]; simpl; [reflexivity|].
  unfold plain at 1. destruct (Issue.pull_request item); simpl; congruence.
Qed.

(** C5.  In a run with a valid configuration in which the fetch succeeds
    and the project resolves: the fetcher gives the fetched items that are
    not pull requests, all of them and no pull request; their number is the
    number of items without the pull-request flag; and the records posted to
    Clubhouse, batch after batch, are the mappings of these issues, one
    record per issue, in order. *)
Theorem records_are_the_issues (w : World.t) (options : Options.t)
    (githubUrl : string) (data : list Issue.t) (project : Project.t) :
  violations options = [] ->
  Options.githubUrl options = Some githubUrl ->
  World.paginate w (listing_request options githubUrl) = inr data ->
  World.getProject w (Options.clubhouseToken options)
    (Options.clubhouseProject options) = inr project ->
  let final := machine_of (githubClubhouseImport w options) boot in
  exists issues,
    outcome_of (fetchGithubIssues w options) boot = Return issues
    /\ (forall issue,
          In issue issues
          <-> In issue data /\ Issue.pull_request issue = None)
    /\ List.length issues = count_issues data
    /\ submitted final = map (getStory (Project.id project)) issues
    /\ List.length (submitted final) = count_issues data.
Proof.
  intros Hvalid Hurl Hfetch Hproject. cbn zeta.
  exists (filter plain data).
  assert (submitted (machine_of (githubClubhouseImport w options) boot)
          = map (getStory (Project.id project)) (filter plain data)) as Hsub.
  { unfold machine_of.
    rewrite (githubClubhouseImport_run w options githubUrl Hvalid Hurl), Hfetch.
    rewrite importIssuesToClubhouse_run, Hproject. cbn zeta.
    destruct (existsb rejects _); cbn [snd out net]; unfold submitted;
      cbn [net fetched app flat_map payload];
      rewrite flat_map_payload_bulk; unfold batches_of;
      apply LodashFacts.chunk_concat; lia. }
  split; [|split; [|split; [|split]]].
  - unfold outcome_of. rewrite (fetchGithubIssues_run w options githubUrl boot Hurl).
    now rewrite Hfetch.
  - intros issue. rewrite filter_In. unfold plain.
    destruct (Issue.pull_request issue); cbn; split; intros [Hin H];
      (split; [exact Hin | congruence]).
  - apply filter_plain_length.
  - exact Hsub.
  - rewrite Hsub, length_map. apply filter_plain_length.
Qed.

Lemma records_are_the_issues_witness :
  let data := [Sample.issue 1; Sample.pull 2; Sample.issue 3] in
  let final :=
    machine_of (githubClubhouseImport (Sample.world data) Sample.options) boot in
  submitted final = [getStory 7 (Sample.issue 1); getStory 7 (Sample.issue 3)]
  /\ List.length (submitted final) = 2.
Proof.
  cbn zeta.
  destruct (records_are_the_issues
              (Sample.world [Sample.issue 1; Sample.pull 2; Sample.issue 3])
              Sample.options "takeshape/takeshape"
              [Sample.issue 1; Sample.pull 2; Sample.issue 3] Sample.project
              eq_refl eq_refl eq_refl eq_refl)
    as [issues [Hfetch [_ [_ [Hsub Hlen]]]]].
  injection Hfetch as <-.
  split; [exact Hsub | exact Hlen].
Defined.

(** C8, as the code has it.  In a run with a valid configuration in which
    the listing fails, the fetcher raises the error of the listing as it is
    and gives no issue; the user gets two failure outputs, the spinner
    failing with a line that names the repository, then a line with the
    text of the error; the only network call is the listing request: no
    project lookup, no story posted. *)
Theorem fetch_failure_stops (w : World.t) (options : Options.t)
    (githubUrl : string) (e : Js.Exception) :
  violations options = [] ->
  Options.githubUrl options = Some githubUrl ->
  World.paginate w (listing_request options githubUrl) = inl e ->
  outcome_of (fetchGithubIssues w options) boot = Throw e
  /\ githubClubhouseImport w options boot
     = (Return tt,
        {| out := [ SpinnerStart "Retrieving issues from Github";
                    SpinnerFail ("Failed to fetch issues from "
                                 ++ githubUrl ++ newline)%string;
                    Log (Js.render e) ];
           net := [ListForRepo (listing_request options githubUrl)] |})
  /\ submitted (machine_of (githubClubhouseImport w options) boot) = [].
Proof.
  intros Hvalid Hurl Hfetch.
  assert (githubClubhouseImport w options boot
          = (Return tt,
             {| out := [retrieving; fetch_failed githubUrl; Log (Js.render e)];
                net := [ListForRepo (listing_request options githubUrl)] |}))
    as Hrun.
  { rewrite (githubClubhouseImport_run w options githubUrl Hvalid Hurl).
    now rewrite Hfetch. }
  split; [|split].
  - unfold outcome_of.
    rewrite (fetchGithubIssues_run w options githubUrl boot Hurl).
    now rewrite Hfetch.
  - exact Hrun.
  - unfold machine_of. rewrite Hrun. reflexivity.
Qed.

Lemma fetch_failure_stops_witness :
  githubClubhouseImport Sample.world_without_github Sample.options boot
  = (Return tt,
     {| out := [ SpinnerStart "Retrieving issues from Github";
                 SpinnerFail (String.append
                                "Failed to fetch issues from takeshape/takeshape"
                                newline);
                 Log "HttpError: Bad credentials" ];
        net := [ListForRepo
                  {| ListRequest.auth := Some "gh-token";
                     ListRequest.owner := Some "takeshape";
                     ListRequest.repo := Some "takeshape";
                     ListRequest.per_page := 100;
                     ListRequest.state := Some "open" |}] |}).
Proof.
  destruct (fetch_failure_stops Sample.world_without_github Sample.options
              "takeshape/takeshape"
              (Js.LibraryError "HttpError" "Bad credentials")
              eq_refl eq_refl eq_refl) as [_ [Hrun _]].
  exact Hrun.
Defined.

(** C8, as the specification states it, fails: in this run the listing
    fails and the failure is not reported as a single error that carries the
    repository identifier and the underlying message.  The fetcher raises
    the error of the library, whose text does not name the repository; the
    user gets two failure outputs, and none of the outputs has both the
    repository identifier and the message. *)
Lemma fetch_failure_two_reports :
  let w := Sample.world_without_github in
  let final := machine_of (githubClubhouseImport w Sample.options) boot in
  let e := Js.LibraryError "HttpError" "Bad credentials" in
  outcome_of (fetchGithubIssues w Sample.options) boot = Throw e
  /\ ~ occurs_in "takeshape/takeshape" (Js.render e)
  /\ List.length (failures final) = 2
  /\ (forall o,
        In o (out final) ->
        ~ (occurs_in "takeshape/takeshape" (line_of o)
           /\ occurs_in "Bad credentials" (line_of o))).
Proof.
  cbn zeta. split; [reflexivity|]. split; [|split; [reflexivity|]].
  - intros H. apply includes_spec in H. discriminate H.
  - intros o Hin. vm_compute in Hin.
    destruct Hin as [<- | [<- | [<- | []]]]; intros [Hrepo Hmsg];
      apply includes_spec in Hrepo, Hmsg; vm_compute in Hrepo, Hmsg;
      discriminate.
Qed.

(** C2, as the code has it.  In a run with a valid configuration in which
    the fetch succeeds and the project does not resolve, the fetcher has
    run before the project lookup (the network calls are the listing
    request, then the project lookup), the failure lines shown to the user
    are the single project-not-found line, and no story is posted. *)
Theorem project_unresolved_after_fetch (w : World.t) (options : Options.t)
    (githubUrl : string) (data : list Issue.t) (e : Js.Exception) :
  violations options = [] ->
  Options.githubUrl options = Some githubUrl ->
  World.paginate w (listing_request options githubUrl) = inr data ->
  World.getProject w (Options.clubhouseToken options)
    (Options.clubhouseProject options) = inl e ->
  let final := machine_of (githubClubhouseImport w options) boot in
  net final
  = [ ListForRepo (listing_request options githubUrl);
      GetProject (Options.clubhouseToken options)
        (Options.clubhouseProject options) ]
  /\ failures final
     = [ Log ("Clubhouse Project ID "
              ++ Js.template (Options.clubhouseProject options)
              ++ " could not be found")%string ]
  /\ submitted final = [].
Proof.
  intros Hvalid Hurl Hfetch Hproject. cbn zeta. unfold machine_of.
  rewrite (githubClubhouseImport_run w options githubUrl Hvalid Hurl), Hfetch.
  rewrite importIssuesToClubhouse_run, Hproject.
  repeat split.
Qed.

Lemma project_unresolved_after_fetch_witness :
  let data := [Sample.issue 1; Sample.pull 2] in
  let final :=
    machine_of
      (githubClubhouseImport (Sample.world_without_project data) Sample.options)
      boot in
  failures final = [Log "Clubhouse Project ID 7 could not be found"]
  /\ submitted final = [].
Proof.
  cbn zeta.
  destruct (project_unresolved_after_fetch
              (Sample.world_without_project [Sample.issue 1; Sample.pull 2])
              Sample.options "takeshape/takeshape"
              [Sample.issue 1; Sample.pull 2]
              (Js.Error "Request failed with status code 404")
              eq_refl eq_refl eq_refl eq_refl) as [_ [Hfail Hsub]].
  split; [exact Hfail | exact Hsub].
Defined.

(** C2, as the specification states it, fails: in this run the project does
    not resolve, and the fetcher was invoked (its listing request is the
    first network call, ahead of the project lookup); the count shown to the
    user is not 0. *)
Lemma project_unresolved_fetcher_invoked :
  let data := [Sample.issue 1; Sample.pull 2] in
  let w := Sample.world_without_project data in
  let final := machine_of (githubClubhouseImport w Sample.options) boot in
  World.getProject w (Some "ch-token") (Some "7")
  = inl (Js.Error "Request failed with status code 404")
  /\ net final
     = [ ListForRepo (listing_request Sample.options "takeshape/takeshape");
         GetProject (Some "ch-token") (Some "7") ]
  /\ ~ In (SpinnerSucceed "Imported 0 issues into Clubhouse") (out final)
  /\ In (SpinnerSucceed "Imported undefined issues into Clubhouse") (out final).
Proof.
  cbn zeta. split; [reflexivity|]. split; [reflexivity|]. split.
  - vm_compute. intros H.
    repeat (destruct H as [H | H]; [discriminate H|]). exact H.
  - vm_compute. tauto.
Qed.

(** ** Validation *)

Lemma violations_spec (options : Options.t) (rule : Rule) :
  In rule (violations options) <-> violated options rule = true.
Proof.
  unfold violations. rewrite filter_In. split; [tauto|].
  intros H. split; [|exact H].
  destruct rule; cbn; tauto.
Qed.

(** X17.  For every configuration whose state filter is
    a string: if some rule is violated, the run prints one line per violated
    rule (every violated rule has its line, and there are as many lines as
    violations), then an empty line, and the process exits with status 1
    without a network call.  When the project identifier alone is missing,
    exactly one violation is reported. *)
Theorem invalid_configuration_exits (w : World.t) (options : Options.t)
    (state : string) :
  Options.state options = Some state ->
  violations options <> [] ->
  let final := machine_of (githubClubhouseImport w options) boot in
  githubClubhouseImport w options boot
  = (Exit 1%Z,
     {| out := map usage (violations options) ++ [LogBlank]; net := [] |})
  /\ (forall rule, violated options rule = true -> In (usage rule) (out final))
  /\ List.length (failures final) = List.length (violations options)
  /\ (missing (Options.githubToken options) = false ->
      missing (Options.clubhouseToken options) = false ->
      missing (Options.clubhouseProject options) = true ->
      missing (Options.githubUrl options) = false ->
      recognized (Options.state options) = true ->
      failures final = [Log "Usage: --clubhouse-project arg is required"]).
Proof.
  intros Hstate Hviolated. cbn zeta.
  assert (githubClubhouseImport w options boot
          = (Exit 1%Z,
             {| out := map usage (violations options) ++ [LogBlank];
                net := [] |})) as Hrun.
  { unfold githubClubhouseImport. unfold bind at 1.
    rewrite (validateOptions_run options state boot Hstate).
    destruct (violations options); [congruence | reflexivity]. }
  unfold machine_of, failures. rewrite Hrun. cbn [snd out].
  split; [reflexivity|]. split; [|split].
  - intros rule Hrule. apply in_or_app. left. apply in_map.
    now apply violations_spec.
  - rewrite filter_app. cbn [filter is_failure]. rewrite app_nil_r.
    rewrite <- (length_map usage). f_equal.
    apply forallb_filter_id. apply forallb_forall.
    intros o Hin. apply in_map_iff in Hin. destruct Hin as [rule [<- _]].
    now destruct rule.
  - intros Hgt Hct Hcp Hgu Hst.
    unfold violations, all_rules, violated. cbn [filter].
    rewrite Hgt, Hct, Hcp, Hgu, Hst. reflexivity.
Qed.

Lemma invalid_configuration_exits_witness :
  let options :=
    {| Options.githubToken := Some "gh-token";
       Options.clubhouseToken := Some "ch-token";
       Options.clubhouseProject := None;
       Options.githubUrl := Some "takeshape/takeshape";
       Options.state := Some "open" |} in
  githubClubhouseImport (Sample.world Sample.issues25) options boot
  = (Exit 1%Z,
     {| out := [Log "Usage: --clubhouse-project arg is required"; LogBlank];
        net := [] |}).
Proof.
  cbn zeta.
  refine (proj1 (invalid_configuration_exits (Sample.world Sample.issues25)
                   {| Options.githubToken := Some "gh-token";
                      Options.clubhouseToken := Some "ch-token";
                      Options.clubhouseProject := None;
                      Options.githubUrl := Some "takeshape/takeshape";
                      Options.state := Some "open" |}
                   "open" eq_refl _)).
  vm_compute. discriminate.
Defined.

(** C4, on the code.  Validation tests the four required settings with
    [!options.x] and reads [options.state.toLowerCase()] without such a
    test.  On a configuration with the four settings and no state filter the
    state rule is violated, and the run neither reports it nor exits: it
    raises a [TypeError], having printed nothing, where the other missing
    settings are reported and end the process with status 1. *)
Lemma missing_state_raises :
  let options :=
    {| Options.githubToken := Some "gh-token";
       Options.clubhouseToken := Some "ch-token";
       Options.clubhouseProject := Some "7";
       Options.githubUrl := Some "takeshape/takeshape";
       Options.state := None |} in
  violations options = [StateRecognized]
  /\ (exists message,
        githubClubhouseImport (Sample.world Sample.issues25) options boot
        = (Throw (Js.TypeError message), boot))
  /\ (forall code final,
        githubClubhouseImport (Sample.world Sample.issues25) options boot
        <> (Exit code, final)).
Proof.
  cbn zeta. split; [reflexivity|]. split; [eexists; reflexivity|].
  intros code final. vm_compute. discriminate.
Qed.

(** C10.  The state filter reaches GitHub as the user wrote it: in a run
    with a valid configuration the first network call is the listing
    request, and its state is the option's string, which is not its
    lower-cased form when the user wrote it with a capital. *)
Theorem state_sent_as_given (w : World.t) (options : Options.t)
    (state : string) :
  Options.state options = Some state ->
  violations options = [] ->
  Js.array_includes recognized_states (Js.toLowerCase state) = true
  /\ exists request rest,
       net (machine_of (githubClubhouseImport w options) boot)
       = ListForRepo request :: rest
       /\ ListRequest.state request = Some state
       /\ (Js.toLowerCase state <> state ->
           ListRequest.state request <> Some (Js.toLowerCase state)).
Proof.
  intros Hstate Hvalid.
  destruct (valid_settings options Hvalid) as [githubUrl [state' [Hurl [Hst Hrec]]]].
  rewrite Hstate in Hst. injection Hst as <-.
  split; [now rewrite array_includes_recognized|].
  exists (listing_request options githubUrl).
  assert (ListRequest.state (listing_request options githubUrl) = Some state)
    as Hsent by (cbn; exact Hstate).
  unfold machine_of.
  rewrite (githubClubhouseImport_run w options githubUrl Hvalid Hurl).
  destruct (World.paginate w _) as [e | data].
  - exists []. cbn [snd net]. split; [reflexivity|]. split; [exact Hsent|].
    rewrite Hsent. congruence.
  - rewrite importIssuesToClubhouse_run.
    destruct (World.getProject w _ _) as [e | project]; cbn zeta;
      [|destruct (existsb rejects _)]; cbn [snd net fetched app];
      eexists; (split; [reflexivity|]); (split; [exact Hsent|]);
      rewrite Hsent; congruence.
Qed.

Lemma state_sent_as_given_witness :
  let options :=
    {| Options.githubToken := Some "gh-token";
       Options.clubhouseToken := Some "ch-token";
       Options.clubhouseProject := Some "7";
       Options.githubUrl := Some "takeshape/takeshape";
       Options.state := Some "OPEN" |} in
  exists request rest,
    net (machine_of (githubClubhouseImport (Sample.world []) options) boot)
    = ListForRepo request :: rest
    /\ ListRequest.state request = Some "OPEN"
    /\ ListRequest.state request <> Some "open".
Proof.
  cbn zeta.
  destruct (state_sent_as_given (Sample.world [])
              {| Options.githubToken := Some "gh-token";
                 Options.clubhouseToken := Some "ch-token";
                 Options.clubhouseProject := Some "7";
                 Options.githubUrl := Some "takeshape/takeshape";
                 Options.state := Some "OPEN" |} "OPEN" eq_refl eq_refl)
    as [_ [request [rest [Hnet [Hstate Hdiff]]]]].
  exists request, rest. split; [exact Hnet|]. split; [exact Hstate|].
  apply Hdiff. discriminate.
Defined.

(* ------------------------------------------------------------------ *)
(** * Further properties of the code *)

(** ** Lemmas *)

Module More.
Import Run.

Lemma posted_rejects_latency (w : World.t) (latency : nat -> nat)
    (options : Options.t) (batches : list (list Story.t)) (n : nat) :
  existsb rejects (posted_promises (with_latency w latency) options n batches)
  = existsb rejects (posted_promises w options n batches).
Proof.
  revert n; induction batches as [|b batches IH]; intros n; cbn; [reflexivity|].
  now rewrite IH.
Qed.

Lemma posted_created_latency (w : World.t) (latency : nat -> nat)
    (options : Options.t) (batches : list (list Story.t)) (n : nat) :
  map created (posted_promises (with_latency w latency) options n batches)
  = map created (posted_promises w options n batches).
Proof.
  revert n; induction batches as [|b batches IH]; intros n; cbn; [reflexivity|].
  now rewrite IH.
Qed.

(** The created counts of the posted requests when the [i]-th one is
    answered with [answer i]. *)
Lemma posted_created_answers (w : World.t) (options : Options.t)
    (batches : list (list Story.t)) (n : nat) (answer : nat -> list Z) :
  (forall i batch, nth_error batches i = Some batch ->
     World.bulk w (n + i) (Options.clubhouseToken options) batch
     = Accepted (answer i)) ->
  map created (posted_promises w options n batches)
  = map (fun i => List.length (answer i)) (seq 0 (List.length batches)).
Proof.
  revert n answer; induction batches as [|b batches IH]; intros n answer Hall.
  - reflexivity.
  - cbn [posted_promises map List.length seq]. f_equal.
    + unfold created. cbn [settled].
      rewrite <- (Nat.add_0_r n), (Hall 0 b eq_refl). reflexivity.
    + rewrite (IH (S n) (fun i => answer (S i))).
      * rewrite <- seq_shift, map_map. reflexivity.
      * intros i batch Hnth. replace (S n + i) with (n + S i) by lia.
        now apply Hall.
Qed.

Lemma list_sum_lengths {A} (lists : list (list A)) :
  list_sum (map (@List.length A) lists) = List.length (List.concat lists).
Proof.
  induction lists as [|l lists IH]; simpl; [reflexivity|].
  now rewrite length_app, IH.
Qed.

(** The created counts when every batch is answered with as many stories
    as it holds. *)
Lemma posted_created_full (w : World.t) (options : Options.t)
    (batches : list (list Story.t)) (n : nat) :
  (forall i batch, nth_error batches i = Some batch ->
     exists added,
       World.bulk w (n + i) (Options.clubhouseToken options) batch
       = Accepted added
       /\ List.length added = List.length batch) ->
  map created (posted_promises w options n batches)
  = map (@List.length _) batches.
Proof.
  revert n; induction batches as [|b batches IH]; intros n Hall.
  - reflexivity.
  - cbn [posted_promises map]. f_equal.
    + destruct (Hall 0 b eq_refl) as [added [Hadded Hlen]].
      rewrite Nat.add_0_r in Hadded. unfold created. cbn [settled].
      now rewrite Hadded.
    + apply IH. intros i batch Hnth.
      replace (S n + i) with (n + S i) by lia. now apply Hall.
Qed.

Lemma full_accepts (w : World.t) (options : Options.t)
    (batches : list (list Story.t)) (n : nat) :
  (forall i batch, nth_error batches i = Some batch ->
     exists added,
       World.bulk w (n + i) (Options.clubhouseToken options) batch
       = Accepted added
       /\ List.length added = List.length batch) ->
  existsb rejects (posted_promises w options n batches) = false.
Proof.
  intros Hall. apply posted_accepts. intros i batch Hnth.
  destruct (Hall i batch Hnth) as [added [Hadded _]]. now exists added.
Qed.

Lemma batches_total (project : Project.t) (issues : list Issue.t) :
  list_sum (map (@List.length _) (batches_of project issues))
  = List.length issues.
Proof.
  rewrite list_sum_lengths. unfold batches_of.
  rewrite LodashFacts.chunk_concat by lia. apply length_map.
Qed.

End More.

Module ChunkMore.
Import Lodash.

Lemma ceil_step (r size : nat) :
  1 <= size -> 1 <= r ->
  (r + size - 1) / size = S ((r - size + size - 1) / size).
Proof.
  intros Hsize Hr. destruct (Nat.lt_ge_cases r size) as [Hlt | Hge].
  - replace (r - size) with 0 by lia. cbn [Nat.add].
    rewrite (Nat.div_small (size - 1) size) by lia.
    symmetry. apply (Nat.div_unique _ _ 1 (r - 1)); lia.
  - replace (r + size - 1) with (r - 1 + 1 * size) by lia.
    rewrite Nat.div_add by lia.
    replace (r - size + size - 1) with (r - 1) by lia. lia.
Qed.

Lemma chunk_loop_length {A} (fuel : nat) (array : list A) (size index : nat) :
  1 <= size -> List.length array - index <= fuel ->
  List.length (chunk_loop fuel array size index)
  = (List.length array - index + size - 1) / size.
Proof.
  intros Hsize. revert index; induction fuel as [|fuel IH]; intros index Hfuel;
    cbn [chunk_loop].
  - replace (List.length array - index) with 0 by lia. cbn [Nat.add].
    symmetry. apply Nat.div_small. lia.
  - destruct (index <? List.length array) eqn:Hlt.
    + apply Nat.ltb_lt in Hlt. cbn [List.length]. rewrite IH by lia.
      rewrite (ceil_step (List.length array - index) size) by lia.
      do 2 f_equal. lia.
    + apply Nat.ltb_ge in Hlt.
      replace (List.length array - index) with 0 by lia. cbn [Nat.add List.length].
      symmetry. apply Nat.div_small. lia.
Qed.

(** The number of batches is the length over the size, rounded up. *)
Lemma chunk_length {A} (array : list A) (size : nat) :
  1 <= size ->
  List.length (chunk array size) = (List.length array + size - 1) / size.
Proof.
  intros Hsize. unfold chunk.
  destruct (List.length array =? 0) eqn:Hlen; cbn [orb].
  - apply Nat.eqb_eq in Hlen. rewrite Hlen. cbn [Nat.add List.length].
    symmetry. apply Nat.div_small. lia.
  - destruct (size <? 1) eqn:Hlt; [apply Nat.ltb_lt in Hlt; lia|].
    rewrite chunk_loop_length by lia. now rewrite Nat.sub_0_r.
Qed.

End ChunkMore.

(** ** The submitter *)

Import Run More.

(** X1.  When the project resolves and Clubhouse accepts every batch, the
    importer prints nothing and returns the sum of the lengths of the arrays
    Clubhouse answered with: the count is what Clubhouse reports as created,
    not the number of stories posted. *)
Theorem accepted_count_is_sum_of_answers (w : World.t) (options : Options.t)
    (issues : list Issue.t) (m : Machine) (project : Project.t)
    (answer : nat -> list Z) :
  World.getProject w (Options.clubhouseToken options)
    (Options.clubhouseProject options) = inr project ->
  (forall i batch,
     nth_error (batches_of project issues) i = Some batch ->
     World.bulk w (S (List.length (net m)) + i)
       (Options.clubhouseToken options) batch = Accepted (answer i)) ->
  importIssuesToClubhouse w options issues m
  = (Return (Some (list_sum
                     (map (fun i => List.length (answer i))
                        (seq 0 (List.length (batches_of project issues)))))),
     {| out := out m;
        net := net m ++ GetProject (Options.clubhouseToken options)
                          (Options.clubhouseProject options)
               :: map (BulkCreate (Options.clubhouseToken options))
                    (batches_of project issues) |}).
Proof.
  intros Hproject Hall.
  rewrite importIssuesToClubhouse_run, Hproject. cbn zeta.
  rewrite (posted_accepts w options).
  - now rewrite (posted_created_answers w options _ _ answer Hall).
  - intros i batch Hnth. exists (answer i). now apply Hall.
Qed.

(** Twenty-five issues, and Clubhouse reports one created story per batch:
    the count is 3. *)
Lemma accepted_count_is_sum_of_answers_witness :
  fst (importIssuesToClubhouse
         (Sample.world_answering [1%Z] Sample.issues25) Sample.options
         Sample.issues25 boot)
  = Return (Some 3).
Proof.
  rewrite (accepted_count_is_sum_of_answers
             (Sample.world_answering [1%Z] Sample.issues25) Sample.options
             Sample.issues25 boot Sample.project (fun _ => [1%Z]) eq_refl).
  - reflexivity.
  - intros i batch _. reflexivity.
Defined.

(** X2.  The order in which the bulk-create requests are answered has no
    influence on the run of the importer: with other latencies the result,
    the output and the network calls are the same. *)
Theorem arrival_order_irrelevant (w : World.t) (latency : nat -> nat)
    (options : Options.t) (issues : list Issue.t) (m : Machine) :
  importIssuesToClubhouse (with_latency w latency) options issues m
  = importIssuesToClubhouse w options issues m.
Proof.
  rewrite !importIssuesToClubhouse_run. cbn [with_latency World.getProject].
  destruct (World.getProject w _ _) as [e | project]; [reflexivity|].
  cbn zeta. now rewrite posted_rejects_latency, posted_created_latency.
Qed.

(** X3.  The importer never raises and never exits.  It either returns a
    count and has printed nothing, or returns [undefined] and has printed
    one line, the project-not-found line. *)
Theorem import_never_raises (w : World.t) (options : Options.t)
    (issues : list Issue.t) (m : Machine) :
  let run := importIssuesToClubhouse w options issues m in
  (exists count, fst run = Return (Some count) /\ out (snd run) = out m)
  \/ (fst run = Return None
      /\ out (snd run)
         = out m ++ [Log ("Clubhouse Project ID "
                          ++ Js.template (Options.clubhouseProject options)
                          ++ " could not be found")%string]).
Proof.
  cbn zeta. rewrite importIssuesToClubhouse_run.
  destruct (World.getProject w _ _) as [e | project]; cbn zeta.
  - right. split; reflexivity.
  - destruct (existsb rejects _).
    + right. split; reflexivity.
    + left. eexists. split; reflexivity.
Qed.

(** X4.  The network calls of the importer are one project lookup followed
    by the bulk-create requests, each with the Clubhouse token and between 1
    and 10 stories.  When the project resolves, the requests carry the
    stories of the issues in order and there are as many as the number of
    issues over ten, rounded up, whether or not Clubhouse accepts them; when
    it does not resolve, no request is posted. *)
Theorem bulk_requests_shape (w : World.t) (options : Options.t)
    (issues : list Issue.t) (m : Machine) :
  let token := Options.clubhouseToken options in
  let id := Options.clubhouseProject options in
  exists batches,
    net (snd (importIssuesToClubhouse w options issues m))
    = net m ++ GetProject token id :: map (BulkCreate token) batches
    /\ Forall (fun batch => 1 <= List.length batch <= 10) batches
    /\ (forall project,
          World.getProject w token id = inr project ->
          List.concat batches = map (getStory (Project.id project)) issues
          /\ List.length batches = (List.length issues + 9) / 10)
    /\ (forall e, World.getProject w token id = inl e -> batches = []).
Proof.
  cbn zeta. rewrite importIssuesToClubhouse_run.
  destruct (World.getProject w _ _) as [e | project]; cbn zeta.
  - exists []. cbn [snd net map]. repeat split; try discriminate. constructor.
  - exists (batches_of project issues).
    assert (Forall (fun batch => 1 <= List.length batch <= 10)
              (batches_of project issues)) as Hsizes.
    { unfold batches_of.
      pose proof (LodashFacts.chunk_sizes
                    (map (getStory (Project.id project)) issues) 10) as Hmax.
      pose proof (LodashFacts.chunk_nonempty
                    (map (getStory (Project.id project)) issues) 10) as Hmin.
      rewrite Forall_forall in *. intros batch Hin.
      specialize (Hmax batch Hin). specialize (Hmin batch Hin).
      destruct batch; [congruence | simpl in *; lia]. }
    assert (forall p, @inr Js.Exception _ project = inr p ->
              List.concat (batches_of project issues)
              = map (getStory (Project.id p)) issues
              /\ List.length (batches_of project issues)
                 = (List.length issues + 9) / 10) as Hproject.
    { intros p [= <-]. unfold batches_of. split.
      - apply LodashFacts.chunk_concat. lia.
      - rewrite ChunkMore.chunk_length by lia. rewrite length_map.
        f_equal. lia. }
    destruct (existsb rejects _); cbn [snd net];
      (split; [reflexivity|]); (split; [exact Hsizes|]);
      (split; [exact Hproject | discriminate]).
Qed.

(** ** The orchestrator *)

Module RunMore.

Lemma filter_listing_bulk (token : option string)
    (batches : list (list Story.t)) :
  filter is_listing (map (BulkCreate token) batches) = [].
Proof. induction batches; simpl; auto. Qed.

Lemma filter_lookup_bulk (token : option string)
    (batches : list (list Story.t)) :
  filter is_lookup (map (BulkCreate token) batches) = [].
Proof. induction batches; simpl; auto. Qed.

(** The network calls of a run that reaches the submitter with a project
    that resolves. *)
Lemma net_of_run (w : World.t) (options : Options.t) (githubUrl : string)
    (data : list Issue.t) (project : Project.t) :
  violations options = [] ->
  Options.githubUrl options = Some githubUrl ->
  World.paginate w (listing_request options githubUrl) = inr data ->
  World.getProject w (Options.clubhouseToken options)
    (Options.clubhouseProject options) = inr project ->
  net (machine_of (githubClubhouseImport w options) boot)
  = ListForRepo (listing_request options githubUrl)
    :: project_lookup options
    :: map (BulkCreate (Options.clubhouseToken options))
         (batches_of project (filter plain data)).
Proof.
  intros Hvalid Hurl Hfetch Hproject. unfold machine_of.
  rewrite (githubClubhouseImport_run w options githubUrl Hvalid Hurl), Hfetch.
  rewrite importIssuesToClubhouse_run, Hproject. cbn zeta.
  destruct (existsb rejects _); reflexivity.
Qed.

Lemma missing_present (setting : option string) :
  missing setting = false <-> present setting.
Proof.
  unfold present. destruct setting as [[|c s]|]; cbn; split.
  - discriminate.
  - intros [s [[= <-] H]]. congruence.
  - intros _. eexists. split; [reflexivity | discriminate].
  - reflexivity.
  - discriminate.
  - intros [s [[=] _]].
Qed.

Lemma recognized_in (s : string) :
  recognized (Some s) = true
  <-> In (Js.toLowerCase s) ["open"; "closed"; "all"]%string.
Proof.
  unfold recognized. destruct (in_dec _ _ _); split; try tauto; discriminate.
Qed.

Lemma violations_nil (options : Options.t) :
  violations options = []
  <-> missing (Options.githubToken options) = false
      /\ missing (Options.clubhouseToken options) = false
      /\ missing (Options.clubhouseProject options) = false
      /\ missing (Options.githubUrl options) = false
      /\ recognized (Options.state options) = true.
Proof.
  unfold violations, all_rules, violated. cbn [filter].
  destruct (missing (Options.githubToken options)),
    (missing (Options.clubhouseToken options)),
    (missing (Options.clubhouseProject options)),
    (missing (Options.githubUrl options)),
    (recognized (Options.state options)); cbn; split;
    try discriminate; try tauto; intros H; decompose [and] H; discriminate.
Qed.

Lemma count_issues_none (data : list Issue.t) :
  Forall (fun item => Issue.pull_request item <> None) data ->
  filter plain data = [].
Proof.
  induction 1 as [|item data Hitem _ IH]; [reflexivity|].
  cbn [filter]. unfold plain at 1.
  destruct (Issue.pull_request item); [exact IH | congruence].
Qed.

End RunMore.

Import RunMore.

(** X5.  In a run that reaches the submitter with a project that resolves,
    the project is looked up once, and every story posted carries the id of
    that project. *)
Theorem stories_carry_project (w : World.t) (options : Options.t)
    (githubUrl : string) (data : list Issue.t) (project : Project.t) :
  violations options = [] ->
  Options.githubUrl options = Some githubUrl ->
  World.paginate w (listing_request options githubUrl) = inr data ->
  World.getProject w (Options.clubhouseToken options)
    (Options.clubhouseProject options) = inr project ->
  let final := machine_of (githubClubhouseImport w options) boot in
  filter is_lookup (net final)
  = [GetProject (Options.clubhouseToken options)
       (Options.clubhouseProject options)]
  /\ Forall (fun story => Story.project_id story = Project.id project)
       (submitted final).
Proof.
  intros Hvalid Hurl Hfetch Hproject. cbn zeta. unfold submitted.
  rewrite (net_of_run w options githubUrl data project Hvalid Hurl Hfetch Hproject).
  cbn [filter is_listing is_lookup project_lookup flat_map payload app].
  rewrite filter_lookup_bulk, flat_map_payload_bulk. split; [reflexivity|].
  unfold batches_of. rewrite LodashFacts.chunk_concat by lia.
  apply Forall_forall. intros story Hin. apply in_map_iff in Hin.
  destruct Hin as [issue [<- _]]. reflexivity.
Qed.

Lemma stories_carry_project_witness :
  let data := [Sample.issue 1; Sample.pull 2; Sample.issue 3] in
  Forall (fun story => Story.project_id story = 7%Z)
    (submitted
       (machine_of (githubClubhouseImport (Sample.world data) Sample.options)
          boot)).
Proof.
  cbn zeta.
  exact (proj2 (stories_carry_project
                  (Sample.world [Sample.issue 1; Sample.pull 2; Sample.issue 3])
                  Sample.options "takeshape/takeshape"
                  [Sample.issue 1; Sample.pull 2; Sample.issue 3]
                  Sample.project eq_refl eq_refl eq_refl eq_refl)).
Defined.

(** X6.  On a configuration whose state filter is a string, validation
    returns exactly when the four required settings are strings with at
    least one character and the state filter, lower-cased, is [open],
    [closed] or [all]; it then has printed nothing and called nothing. *)
Theorem validation_accepts_iff (options : Options.t) (state : string)
    (m : Machine) :
  Options.state options = Some state ->
  (fst (validateOptions options m) = Return tt
   <-> present (Options.githubToken options)
       /\ present (Options.clubhouseToken options)
       /\ present (Options.clubhouseProject options)
       /\ present (Options.githubUrl options)
       /\ In (Js.toLowerCase state) ["open"; "closed"; "all"]%string)
  /\ (fst (validateOptions options m) = Return tt ->
      snd (validateOptions options m) = m).
Proof.
  intros Hstate. rewrite (validateOptions_run options state m Hstate).
  rewrite <- !missing_present, <- recognized_in, <- Hstate, <- violations_nil.
  destruct (violations options); cbn [fst snd]; split;
    try (split; congruence); try congruence; reflexivity.
Qed.

Lemma validation_accepts_iff_witness :
  fst (validateOptions
         {| Options.githubToken := Some "gh-token";
            Options.clubhouseToken := Some "ch-token";
            Options.clubhouseProject := Some "7";
            Options.githubUrl := Some "takeshape/takeshape";
            Options.state := Some "Closed" |} boot) = Return tt.
Proof.
  apply (proj1 (validation_accepts_iff
                  {| Options.githubToken := Some "gh-token";
                     Options.clubhouseToken := Some "ch-token";
                     Options.clubhouseProject := Some "7";
                     Options.githubUrl := Some "takeshape/takeshape";
                     Options.state := Some "Closed" |} "Closed" boot eq_refl)).
  repeat split;
    try (eexists; split; [reflexivity | discriminate]).
  right. left. reflexivity.
Defined.

(** X7.  On a configuration without state filter, whatever the other
    settings, validation prints the lines of the missing required settings
    and then raises a [TypeError]: the process does not exit, no line about
    the state is printed, and no network call is made; the run of the
    importer ends with that error. *)
Theorem missing_state_always_raises (w : World.t) (options : Options.t) :
  Options.state options = None ->
  exists message,
    validateOptions options boot
    = (Throw (Js.TypeError message),
       {| out := map usage (filter (violated options) required_rules);
          net := [] |})
    /\ githubClubhouseImport w options boot = validateOptions options boot.
Proof.
  destruct options as [gt ct cp gu st]. cbn [Options.state]. intros ->.
  exists "Cannot read property 'toLowerCase' of undefined".
  unfold githubClubhouseImport. unfold bind at 1.
  unfold required_rules, violated.
  cbv beta iota delta
    [validateOptions bind ret Options.githubToken Options.clubhouseToken
     Options.clubhouseProject Options.githubUrl Options.state filter].
  rewrite !falsy_missing.
  destruct (missing gt), (missing ct), (missing cp), (missing gu);
    split; reflexivity.
Qed.

Lemma missing_state_always_raises_witness :
  exists message,
    githubClubhouseImport (Sample.world Sample.issues25)
      {| Options.githubToken := None;
         Options.clubhouseToken := Some "ch-token";
         Options.clubhouseProject := Some "7";
         Options.githubUrl := Some "";
         Options.state := None |} boot
    = (Throw (Js.TypeError message),
       {| out := [Log "Usage: --github-token arg is required";
                  Log "Usage: --github-url arg is required"];
          net := [] |}).
Proof.
  destruct (missing_state_always_raises (Sample.world Sample.issues25)
              {| Options.githubToken := None;
                 Options.clubhouseToken := Some "ch-token";
                 Options.clubhouseProject := Some "7";
                 Options.githubUrl := Some "";
                 Options.state := None |} eq_refl) as [message [Hv Hrun]].
  exists message. rewrite Hrun. exact Hv.
Defined.

(** X8.  A run in which everything succeeds: with a valid configuration, a
    listing that succeeds, a project that resolves and a Clubhouse that
    creates every story of every batch, the run returns, the user sees the
    two spinners succeed with the number of fetched items that are not pull
    requests, both as retrieved and as imported, and the network calls are
    the listing, the project lookup and the bulk-create requests. *)
Theorem successful_run_report (w : World.t) (options : Options.t)
    (githubUrl : string) (data : list Issue.t) (project : Project.t) :
  violations options = [] ->
  Options.githubUrl options = Some githubUrl ->
  World.paginate w (listing_request options githubUrl) = inr data ->
  World.getProject w (Options.clubhouseToken options)
    (Options.clubhouseProject options) = inr project ->
  (forall i batch,
     nth_error (batches_of project (filter plain data)) i = Some batch ->
     exists added,
       World.bulk w (2 + i) (Options.clubhouseToken options) batch
       = Accepted added
       /\ List.length added = List.length batch) ->
  githubClubhouseImport w options boot
  = (Return tt,
     {| out :=
          [ SpinnerStart "Retrieving issues from Github";
            SpinnerSucceed ("Retrieved " ++ Js.string_of_nat (count_issues data)
                            ++ " issues from Github")%string;
            SpinnerStart "Importing issues into Clubhouse";
            SpinnerSucceed ("Imported " ++ Js.string_of_nat (count_issues data)
                            ++ " issues into Clubhouse")%string ];
        net :=
          ListForRepo (listing_request options githubUrl)
          :: GetProject (Options.clubhouseToken options)
               (Options.clubhouseProject options)
          :: map (BulkCreate (Options.clubhouseToken options))
               (batches_of project (filter plain data)) |}).
Proof.
  intros Hvalid Hurl Hfetch Hproject Hall.
  rewrite (githubClubhouseImport_run w options githubUrl Hvalid Hurl), Hfetch.
  rewrite importIssuesToClubhouse_run, Hproject. cbn zeta.
  cbn [fetched net List.length].
  rewrite (full_accepts w options _ 2 Hall).
  rewrite (posted_created_full w options _ 2 Hall), batches_total.
  unfold fetched, retrieving, retrieved, importing, imported.
  cbn [out net app show_count]. rewrite filter_plain_length. reflexivity.
Qed.

Lemma successful_run_report_witness :
  out (snd (githubClubhouseImport
              (Sample.world (Sample.pull 26 :: Sample.issues25))
              Sample.options boot))
  = [ SpinnerStart "Retrieving issues from Github";
      SpinnerSucceed "Retrieved 25 issues from Github";
      SpinnerStart "Importing issues into Clubhouse";
      SpinnerSucceed "Imported 25 issues into Clubhouse" ].
Proof.
  rewrite (successful_run_report
             (Sample.world (Sample.pull 26 :: Sample.issues25))
             Sample.options "takeshape/takeshape"
             (Sample.pull 26 :: Sample.issues25) Sample.project
             eq_refl eq_refl eq_refl eq_refl).
  - reflexivity.
  - intros i batch _. eexists. split; [reflexivity|]. apply length_map.
Defined.

(** X9.  Nothing to import: when the listing holds pull requests only, or
    nothing, the project is looked up all the same, no story is posted, and
    with a project that resolves the user is told that 0 issues were
    retrieved and 0 imported. *)
Theorem nothing_to_import (w : World.t) (options : Options.t)
    (githubUrl : string) (data : list Issue.t) (project : Project.t) :
  violations options = [] ->
  Options.githubUrl options = Some githubUrl ->
  World.paginate w (listing_request options githubUrl) = inr data ->
  Forall (fun item => Issue.pull_request item <> None) data ->
  World.getProject w (Options.clubhouseToken options)
    (Options.clubhouseProject options) = inr project ->
  githubClubhouseImport w options boot
  = (Return tt,
     {| out := [ SpinnerStart "Retrieving issues from Github";
                 SpinnerSucceed "Retrieved 0 issues from Github";
                 SpinnerStart "Importing issues into Clubhouse";
                 SpinnerSucceed "Imported 0 issues into Clubhouse" ];
        net := [ ListForRepo (listing_request options githubUrl);
                 GetProject (Options.clubhouseToken options)
                   (Options.clubhouseProject options) ] |}).
Proof.
  intros Hvalid Hurl Hfetch Hpulls Hproject.
  rewrite (githubClubhouseImport_run w options githubUrl Hvalid Hurl), Hfetch.
  rewrite (count_issues_none data Hpulls).
  rewrite importIssuesToClubhouse_run, Hproject. reflexivity.
Qed.

Lemma nothing_to_import_witness :
  net (snd (githubClubhouseImport
              (Sample.world [Sample.pull 1; Sample.pull 2]) Sample.options
              boot))
  = [ ListForRepo (listing_request Sample.options "takeshape/takeshape");
      GetProject (Some "ch-token") (Some "7") ].
Proof.
  rewrite (nothing_to_import
             (Sample.world [Sample.pull 1; Sample.pull 2]) Sample.options
             "takeshape/takeshape" [Sample.pull 1; Sample.pull 2]
             Sample.project eq_refl eq_refl eq_refl).
  - reflexivity.
  - repeat constructor; discriminate.
  - reflexivity.
Defined.

(** X10.  A run with a valid configuration always returns: it never exits
    and never raises, whatever the two services answer.  Its first network
    call is the listing request, which is made once (no retry), and the
    project is looked up at most once. *)
Theorem valid_run_returns (w : World.t) (options : Options.t) :
  violations options = [] ->
  let run := githubClubhouseImport w options boot in
  fst run = Return tt
  /\ exists request rest,
       net (snd run) = ListForRepo request :: rest
       /\ filter is_listing rest = []
       /\ List.length (filter is_lookup rest) <= 1.
Proof.
  intros Hvalid. cbn zeta.
  destruct (valid_settings options Hvalid) as [githubUrl [state [Hurl _]]].
  rewrite (githubClubhouseImport_run w options githubUrl Hvalid Hurl).
  destruct (World.paginate w _) as [e | data].
  - split; [reflexivity|]. exists (listing_request options githubUrl), [].
    cbn. repeat split. lia.
  - rewrite importIssuesToClubhouse_run.
    destruct (World.getProject w _ _) as [e | project]; cbn zeta;
      [|destruct (existsb rejects _)];
      (split; [reflexivity|]);
      exists (listing_request options githubUrl); eexists;
      cbn [snd net fetched app];
      (split; [reflexivity|]);
      cbn [filter is_listing is_lookup project_lookup];
      rewrite ?filter_listing_bulk, ?filter_lookup_bulk; cbn; split; auto.
Qed.

Lemma valid_run_returns_witness :
  fst (githubClubhouseImport (Sample.world_rejecting 3 Sample.issues25)
         Sample.options boot) = Return tt.
Proof.
  exact (proj1 (valid_run_returns (Sample.world_rejecting 3 Sample.issues25)
                  Sample.options eq_refl)).
Defined.

(** ** The fetcher *)

Module SplitFacts.

Lemma slash_free_cons (c : ascii) (s : string) :
  slash_free (String c s) -> c <> "/"%char /\ slash_free s.
Proof.
  intros Hfree. split.
  - intros ->. apply (Hfree EmptyString s). reflexivity.
  - intros before after ->. apply (Hfree (String c before) after). reflexivity.
Qed.

Lemma split_slash_free (s : string) :
  slash_free s -> Js.split "/"%char s = [s].
Proof.
  induction s as [|c s IH]; intros Hfree; cbn [Js.split]; [reflexivity|].
  apply slash_free_cons in Hfree. destruct Hfree as [Hc Hfree].
  apply Ascii.eqb_neq in Hc. rewrite Hc, (IH Hfree). reflexivity.
Qed.

Lemma includes_slash_free (s : string) :
  Js.includes s "/" = false -> slash_free s.
Proof.
  intros Hinc before after Heq.
  assert (Js.includes s "/" = true) as Htrue
      by (apply JsFacts.includes_spec; now exists before, after).
  congruence.
Qed.

Lemma split_first (piece rest : string) :
  slash_free piece ->
  Js.split "/"%char (piece ++ "/" ++ rest) = piece :: Js.split "/"%char rest.
Proof.
  induction piece as [|c piece IH]; intros Hfree.
  - reflexivity.
  - apply slash_free_cons in Hfree. destruct Hfree as [Hc Hfree].
    apply Ascii.eqb_neq in Hc.
    change (String c piece ++ "/" ++ rest)%string
      with (String c (piece ++ "/" ++ rest)).
    cbn [Js.split]. rewrite Hc, (IH Hfree). reflexivity.
Qed.

End SplitFacts.

(** X11.  For a repository url of the form [owner/repo], and also
    [owner/repo/more], where neither [owner] nor [repo] has a slash, the
    fetcher makes one network call, the listing request for that owner and
    that repository, with the GitHub token, pages of 100 and the state
    filter of the options; what follows a second slash is ignored. *)
Theorem listing_for_owner_and_repo (w : World.t) (options : Options.t)
    (owner repo : string) (m : Machine) :
  Js.includes owner "/" = false ->
  Js.includes repo "/" = false ->
  Options.githubUrl options = Some (owner ++ "/" ++ repo)%string
  \/ (exists more,
        Options.githubUrl options
        = Some (owner ++ "/" ++ repo ++ "/" ++ more)%string) ->
  net (snd (fetchGithubIssues w options m))
  = net m
    ++ [ListForRepo
          {| ListRequest.auth := Options.githubToken options;
             ListRequest.owner := Some owner;
             ListRequest.repo := Some repo;
             ListRequest.per_page := 100;
             ListRequest.state := Options.state options |}].
Proof.
  intros Howner Hrepo.
  apply SplitFacts.includes_slash_free in Howner, Hrepo.
  intros [Hurl | [more Hurl]];
    rewrite (fetchGithubIssues_run w options _ m Hurl); cbn [snd net];
    unfold listing_request; rewrite (SplitFacts.split_first _ _ Howner).
  - rewrite (SplitFacts.split_slash_free _ Hrepo). reflexivity.
  - rewrite (SplitFacts.split_first _ _ Hrepo). reflexivity.
Qed.

Lemma listing_for_owner_and_repo_witness :
  net (snd (fetchGithubIssues (Sample.world []) Sample.options boot))
  = [ListForRepo
       {| ListRequest.auth := Some "gh-token";
          ListRequest.owner := Some "takeshape";
          ListRequest.repo := Some "takeshape";
          ListRequest.per_page := 100;
          ListRequest.state := Some "open" |}].
Proof.
  exact (listing_for_owner_and_repo (Sample.world []) Sample.options
           "takeshape" "takeshape" boot eq_refl eq_refl (or_introl eq_refl)).
Defined.

(** X12.  For a repository url without slash the listing request has the
    whole url as owner and no repository ([undefined]); the request is made
    all the same. *)
Theorem listing_without_repo (w : World.t) (options : Options.t)
    (githubUrl : string) (m : Machine) :
  Js.includes githubUrl "/" = false ->
  Options.githubUrl options = Some githubUrl ->
  net (snd (fetchGithubIssues w options m))
  = net m
    ++ [ListForRepo
          {| ListRequest.auth := Options.githubToken options;
             ListRequest.owner := Some githubUrl;
             ListRequest.repo := None;
             ListRequest.per_page := 100;
             ListRequest.state := Options.state options |}].
Proof.
  intros Hfree Hurl. apply SplitFacts.includes_slash_free in Hfree.
  rewrite (fetchGithubIssues_run w options _ m Hurl).
  cbn [snd net]. unfold listing_request.
  rewrite (SplitFacts.split_slash_free _ Hfree). reflexivity.
Qed.

Lemma listing_without_repo_witness :
  net (snd (fetchGithubIssues (Sample.world [])
              {| Options.githubToken := Some "gh-token";
                 Options.clubhouseToken := Some "ch-token";
                 Options.clubhouseProject := Some "7";
                 Options.githubUrl := Some "takeshape";
                 Options.state := Some "all" |} boot))
  = [ListForRepo
       {| ListRequest.auth := Some "gh-token";
          ListRequest.owner := Some "takeshape";
          ListRequest.repo := None;
          ListRequest.per_page := 100;
          ListRequest.state := Some "all" |}].
Proof.
  exact (listing_without_repo (Sample.world [])
           {| Options.githubToken := Some "gh-token";
              Options.clubhouseToken := Some "ch-token";
              Options.clubhouseProject := Some "7";
              Options.githubUrl := Some "takeshape";
              Options.state := Some "all" |}
           "takeshape" boot eq_refl eq_refl).
Defined.

(** ** The mapper *)

Module MapperFacts.

Lemma find_existsb {A} (f : A -> bool) (l : list A) :
  match find f l with
  | Some _ => true
  | None => false
  end = existsb f l.
Proof.
  induction l as [|x l IH]; cbn; [reflexivity|].
  destruct (f x); [reflexivity | exact IH].
Qed.

(** The story type by the two tests on the labels. *)
Lemma getStoryType_tests (labels : list Label.t) :
  getStoryType labels
  = if existsb (fun label => Js.includes (Label.name label) "bug") labels
    then bug
    else if existsb (fun label => Js.includes (Label.name label) "chore") labels
         then chore
         else feature.
Proof.
  unfold getStoryType. rewrite <- !find_existsb.
  destruct (find _ labels); [reflexivity|].
  destruct (find _ labels); reflexivity.
Qed.

Lemma existsb_map {A B} (f : B -> bool) (g : A -> B) (l : list A) :
  existsb f (map g l) = existsb (fun x => f (g x)) l.
Proof.
  induction l as [|x l IH]; cbn; [reflexivity|]. now rewrite IH.
Qed.

End MapperFacts.

(** X13.  The story type does not depend on the order of the labels: two
    label lists that are permutations of each other give the same type. *)
Theorem getStoryType_order_irrelevant (labels labels' : list Label.t) :
  Permutation labels labels' ->
  getStoryType labels = getStoryType labels'.
Proof.
  intros Hperm. rewrite !MapperFacts.getStoryType_tests.
  now rewrite !(existsb_permutation _ _ _ Hperm).
Qed.

Lemma getStoryType_order_irrelevant_witness :
  getStoryType [ {| Label.name := "chore"; Label.color := "ededed" |};
                 {| Label.name := "bug"; Label.color := "d73a4a" |} ]
  = getStoryType [ {| Label.name := "bug"; Label.color := "d73a4a" |};
                   {| Label.name := "chore"; Label.color := "ededed" |} ].
Proof.
  apply getStoryType_order_irrelevant. apply perm_swap.
Defined.

(** X14.  The type of a story is the one of its issue's labels, and the
    labels the story carries give the same type again: putting [#] before
    the colors leaves the names, which alone decide the type. *)
Theorem story_type_of_mapped_labels (project_id : Z) (issue : Issue.t) :
  let story := getStory project_id issue in
  Story.story_type story = getStoryType (Issue.labels issue)
  /\ getStoryType (Story.labels story) = Story.story_type story.
Proof.
  cbn zeta. split; [reflexivity|].
  unfold getStory. cbn [Story.labels Story.story_type].
  rewrite !MapperFacts.getStoryType_tests, !MapperFacts.existsb_map.
  reflexivity.
Qed.

(** ** Validation and letter case *)

Module CaseFacts.

Lemma lower_char_idempotent (c : ascii) :
  Js.lower_char (Js.lower_char c) = Js.lower_char c.
Proof.
  destruct c as [[] [] [] [] [] [] [] []]; vm_compute; reflexivity.
Qed.

Lemma toLowerCase_idempotent (s : string) :
  Js.toLowerCase (Js.toLowerCase s) = Js.toLowerCase s.
Proof.
  induction s as [|c s IH]; cbn; [reflexivity|].
  now rewrite lower_char_idempotent, IH.
Qed.

End CaseFacts.

(** X15.  Validation does not look at the letter case of the state filter:
    with the filter as written and with the filter lower-cased, it prints
    the same lines and ends the same way. *)
Theorem validation_ignores_case (options : Options.t) (state : string)
    (m : Machine) :
  validateOptions (with_state options (Some state)) m
  = validateOptions (with_state options (Some (Js.toLowerCase state))) m.
Proof.
  rewrite (validateOptions_run (with_state options (Some state)) state m
             eq_refl).
  rewrite (validateOptions_run
             (with_state options (Some (Js.toLowerCase state)))
             (Js.toLowerCase state) m eq_refl).
  assert (violations (with_state options (Some state))
          = violations (with_state options (Some (Js.toLowerCase state))))
    as Hsame.
  { unfold violations, all_rules, violated, with_state, recognized.
    cbn [Options.githubToken Options.clubhouseToken Options.clubhouseProject
         Options.githubUrl Options.state].
    now rewrite CaseFacts.toLowerCase_idempotent. }
  now rewrite Hsame.
Qed.

(** ** Full batches *)

(** X16.  Every bulk-create request but the last carries exactly ten
    stories: in the batches made of the stories of the issues, a batch that
    is followed by another one has ten. *)
Theorem batches_full_but_last (project : Project.t) (issues : list Issue.t)
    (i : nat) (batch : list Story.t) :
  nth_error (batches_of project issues) i = Some batch ->
  S i < List.length (batches_of project issues) ->
  List.length batch = 10.
Proof.
  unfold batches_of. set (stories := map (getStory (Project.id project)) issues).
  intros Hnth Hnext.
  rewrite ChunkMore.chunk_length in Hnext by lia.
  pose proof (Nat.Div0.mul_div_le (List.length stories + 10 - 1) 10) as Hdiv.
  apply LodashFacts.chunk_nth in Hnth. rewrite Hnth. unfold Lodash.slice.
  rewrite length_firstn, length_skipn. lia.
Qed.

Lemma batches_full_but_last_witness :
  List.length (map (getStory 7) (map Sample.issue (seq 11 10))) = 10.
Proof.
  apply (batches_full_but_last Sample.project Sample.issues25 1).
  - reflexivity.
  - vm_compute. lia.
Defined.
